(** * midi-rnn: the event codec and the streaming corpus pool

    A shallow embedding of the utility functions and of the training loop of
    the notebook [midi-rnn.ipynb]:

    - [load_midi_file]     MIDI messages to fixed-width 5-byte records,
                           bit-expanded to rows of 40 bits;
    - [create_midi_track]  rows of 40 bits back to MIDI messages;
    - [is_midi_0]          the format filter;
    - [extract_samples]    window extraction with augmentation, over a store
                           of numpy buffers (views share their buffer);
    - the training loop    stream choice, exhaustion, rotation, commit;
    - the generation cell  the network fed with its own output, through a
                           view of the current stream.

    Conventions.  The times that [load_midi_file] stores and that
    [create_midi_track] reads are IEEE 754 numbers ([SpecFloat]): doubles
    for Python floats, binary32 for [np.float32].  The scalars of the
    arrays that the training loop and the generation cell work on (noise,
    the float copies of the bit rows, the outputs of the network) are exact
    rationals [Q].  Python exceptions are values of [exn]; a computation
    is an [outcome].  The libraries the notebook calls ([mido], the
    summation of [np.mean], the random generator, the network) are section
    variables or explicit arguments. *)

From Stdlib Require Import ZArith QArith Qround Qabs Lia ZifyNat Bool String SpecFloat.
From stdpp Require Import base option list gmap.

Local Open Scope Z_scope.

(* ===================================================================== *)
(** * Part I: the embedding                                               *)
(* ===================================================================== *)

(** ** Exceptions and outcomes *)

Inductive exn : Type :=
| ValueError
| IndexError
| AxisError
| NameError
| IOError
| EOFError
| KeyError
| OverflowError.

(** [Looping] is not an exception: it marks a [while] loop that was still
    running when the finite list of random draws it is given ran out. *)
Inductive outcome (A : Type) : Type :=
| Ret (a : A)
| Raise (e : exn)
| Looping.
Arguments Ret {A} a.
Arguments Raise {A} e.
Arguments Looping {A}.

#[global] Instance outcome_ret : MRet outcome := fun A a => Ret a.
#[global] Instance outcome_bind : MBind outcome := fun A B k m =>
  match m with
  | Ret a => k a
  | Raise e => Raise e
  | Looping => Looping
  end.

(** [try: body  except Exception: handler]. *)
Definition try_except {A} (body : outcome A) (handler : exn -> outcome A) : outcome A :=
  match body with
  | Ret a => Ret a
  | Raise e => handler e
  | Looping => Looping
  end.

(** [l[i]] for a non-negative index: [IndexError] out of range. *)
Definition getitem {A} (l : list A) (i : nat) : outcome A :=
  match l !! i with
  | Some a => Ret a
  | None => Raise IndexError
  end.

(** ** numpy scalars and bit packing *)

(** Conversion to dtype ['B'] (uint8); the identity on byte values. *)
Definition as_uint8 (v : Z) : Z := v mod 256.

(** The eight bits of one byte, most significant first. *)
Definition byte_bits (v : Z) : list Z :=
  map (fun i => Z.b2z (Z.testbit (as_uint8 v) i)) [7; 6; 5; 4; 3; 2; 1; 0].

(** [np.unpackbits(a, axis=1)] on one row of bytes. *)
Definition np_unpackbits (row : list Z) : list Z := flat_map byte_bits row.

(** A group of at most eight entries packed into one byte, most significant
    first; a non-zero entry counts as 1, a short group is padded with 0. *)
Definition pack8 (bits : list Z) : Z :=
  fold_left (fun acc b => 2 * acc + (if b =? 0 then 0 else 1))
            (take 8 (bits ++ replicate 8 0)) 0.

Fixpoint packbits_groups (n : nat) (bits : list Z) : list Z :=
  match n, bits with
  | _, [] => []
  | O, _ :: _ => []
  | S k, _ :: _ => pack8 (take 8 bits) :: packbits_groups k (drop 8 bits)
  end.

(** [np.packbits(a, axis=0)] on a one-dimensional array. *)
Definition np_packbits (bits : list Z) : list Z := packbits_groups (length bits) bits.

(** [int(np.round(q))]: to the nearest integer, halves to the even one. *)
Definition np_round (q : Q) : Z :=
  let f := Qfloor q in
  match Qcompare (q - inject_Z f) (1 # 2) with
  | Lt => f
  | Gt => f + 1
  | Eq => if Z.even f then f else f + 1
  end.

(** ** Floating point *)

(** A Python [float] and an [np.float64] are binary64 numbers, an
    [np.float32] is a binary32 number.  Their arithmetic is that of
    IEEE 754 with rounding to nearest, ties to even, as [SpecFloat] gives
    it for a precision and a maximal exponent; a [spec_float] is read at
    the precision of the operation applied to it. *)

(** The double of a Python [int] in [float * int], and the binary32 of
    one in [np.float32 * int]. *)
Definition float64_of_int (z : Z) : spec_float := binary_normalize 53 1024 z 0 false.
Definition float32_of_int (z : Z) : spec_float := binary_normalize 24 128 z 0 false.

Definition float64_mul (x y : spec_float) : spec_float := SFmul 53 1024 x y.
Definition float32_mul (x y : spec_float) : spec_float := SFmul 24 128 x y.

(** [a.astype(np.float32)] on a double. *)
Definition astype_float32 (x : spec_float) : spec_float :=
  match x with
  | S754_finite s m e => binary_round 24 128 s m e
  | _ => x
  end.

(** The rational that a finite float stands for. *)
Definition float_value (x : spec_float) : option Q :=
  match x with
  | S754_zero _ => Some 0%Q
  | S754_finite s m e =>
      let v := match e with
               | Zneg k => Qmake (Z.pos m) (Pos.pow 2 k)
               | _ => inject_Z (Z.pos m * 2 ^ e)
               end in
      Some (if s then (- v)%Q else v)
  | _ => None
  end.

(** The integer nearest to [m * 2^e], ties to the even one. *)
Definition nearest_even (m : positive) (e : Z) : Z :=
  match e with
  | Zneg k =>
      let d := 2 ^ Z.pos k in
      let q := Z.pos m / d in
      match Z.compare (2 * (Z.pos m mod d)) d with
      | Lt => q
      | Gt => q + 1
      | Eq => if Z.even q then q else q + 1
      end
  | _ => Z.pos m * 2 ^ e
  end.

(** [int(np.round(x))] for a float of either precision: [int] raises
    [ValueError] on NaN and [OverflowError] on an infinity. *)
Definition int_round (x : spec_float) : outcome Z :=
  match x with
  | S754_zero _ => Ret 0
  | S754_finite s m e => Ret (if s then - nearest_even m e else nearest_even m e)
  | S754_infinity _ => Raise OverflowError
  | S754_nan => Raise ValueError
  end.

(** ** [load_midi_file]: messages to records *)

(** A message as the parser yields it: [x.bytes()] and [x.time], a double
    (the [int] 0 that the parser gives a delta of no ticks is the double
    0). *)
Record Message : Type := { msg_bytes : list Z; msg_time : spec_float }.

(** [np.zeros((5))]. *)
Definition zeros5 : list Z := [0; 0; 0; 0; 0].

(** The state of the loops: the record under construction [cur], and the
    two output lists [midi_data] and [midi_time]. *)
Record loader : Type := {
  cur : list Z;
  midi_data : list (list Z);
  midi_time : list spec_float
}.

(** The body of [for ind,byte in enumerate(x.bytes())]. *)
Definition load_byte (ticks_per_beat : Z) (x : Message) (ind : nat) (byte : Z)
    (s : loader) : loader :=
  let c0 := if 3 <? Z.of_nat (length (msg_bytes x)) then <[0%nat := 1]> (cur s) else cur s in
  let c1 := <[(1 + ind mod 3)%nat := byte]> c0 in
  if ((ind + 1) mod 3 =? 0)%nat || (ind + 1 =? length (msg_bytes x))%nat then
    {| cur := zeros5;
       midi_data := midi_data s ++ [<[4%nat := Z.of_nat (ind mod 3) + 1]> c1];
       midi_time := midi_time s
                    ++ [float64_mul (float64_mul (msg_time x) (float64_of_int ticks_per_beat))
                                    (float64_of_int 2)] |}
  else
    {| cur := c1; midi_data := midi_data s; midi_time := midi_time s |}.

Fixpoint load_bytes (ticks_per_beat : Z) (x : Message) (ind : nat) (bs : list Z)
    (s : loader) : loader :=
  match bs with
  | [] => s
  | byte :: bs' => load_bytes ticks_per_beat x (S ind) bs' (load_byte ticks_per_beat x ind byte s)
  end.

(** The body of [for x in midi]: a fresh [cur], then the loop over the bytes. *)
Definition load_message (ticks_per_beat : Z) (s : loader) (x : Message) : loader :=
  load_bytes ticks_per_beat x 0 (msg_bytes x)
    {| cur := zeros5; midi_data := midi_data s; midi_time := midi_time s |}.

Definition load_messages (ticks_per_beat : Z) (midi : list Message) : loader :=
  fold_left (load_message ticks_per_beat) midi
    {| cur := zeros5; midi_data := []; midi_time := [] |}.

(** The records and times that one message contributes (encode of one
    event): the loop body run from empty output lists, the times as the
    final [astype(np.float32)] leaves them. *)
Definition encode_event (ticks_per_beat : Z) (x : Message)
    : list (list Z) * list spec_float :=
  let s := load_message ticks_per_beat {| cur := zeros5; midi_data := []; midi_time := [] |} x in
  (midi_data s, map astype_float32 (midi_time s)).

(** A parsed file: [midi_file.type], [midi_file.ticks_per_beat] (a 16-bit
    field of the file header) and the messages that iterating the file
    yields. *)
Record MidiFile : Type := {
  mf_type : Z;
  mf_ticks_per_beat : Z;
  mf_messages : list Message
}.

(** [load_midi_file] from the parsed file on.  [np.max] of an empty array
    raises [ValueError]; with no record at all [np.asarray] gives a
    one-dimensional array and [np.unpackbits(.., axis=1)] raises. *)
Definition load_midi_data (f : MidiFile) : outcome (list (list Z) * list spec_float) :=
  match mf_messages f with
  | [] => Raise ValueError
  | _ :: _ =>
      let s := load_messages (mf_ticks_per_beat f) (mf_messages f) in
      match midi_data s with
      | [] => Raise AxisError
      | _ :: _ => Ret (map np_unpackbits (midi_data s), map astype_float32 (midi_time s))
      end
  end.

Section FileStore.

(** [mido.MidiFile(filename)]: the parsed file, or the exception that the
    parser or the file system raises. *)
Variable MidiFile_open : string -> exn + MidiFile.

Definition MidiFile_ (filename : string) : outcome MidiFile :=
  match MidiFile_open filename with
  | inr f => Ret f
  | inl e => Raise e
  end.

Definition load_midi_file (filename : string)
    : outcome (list (list Z) * list spec_float) :=
  f ← MidiFile_ filename; load_midi_data f.

(** [is_midi_0]. *)
Definition is_midi_0 (filename : string) : outcome bool :=
  try_except (f ← MidiFile_ filename; Ret (mf_type f =? 0))
             (fun _ => Ret false).

End FileStore.

(** ** [create_midi_track]: rows of bits to messages *)

(** A message of the output track: its bytes and its [time] in ticks. *)
Record TrackMessage : Type := { tm_bytes : list Z; tm_time : Z }.

Definition set_time (m : TrackMessage) (t : Z) : TrackMessage :=
  {| tm_bytes := tm_bytes m; tm_time := t |}.

(** An entry of [midi_timing]: a number of an [int32] array or of a
    [float32] array. *)
Inductive scalar : Type :=
| int32 (z : Z)
| float32 (x : spec_float).

Definition is_float32 (t : scalar) : bool :=
  match t with
  | float32 _ => true
  | int32 _ => false
  end.

(** The double that an entry converts to, without loss. *)
Definition as_double (t : scalar) : spec_float :=
  match t with
  | int32 z => float64_of_int z
  | float32 x => x
  end.

(** The state of the loop: the two aggregation lists, the track, and the
    exceptions printed so far. *)
Record decoder : Type := {
  aggregator : list Z;
  aggregator_times : list scalar;
  track : list TrackMessage;
  printed : list exn
}.

Definition decoder_init : decoder :=
  {| aggregator := []; aggregator_times := []; track := []; printed := [] |}.

(** [m*10] for a mean [m] of the type [np.float32] ([single]) or
    [np.float64]: the Python [int] 10 takes the type of [m], so the
    product of an [np.float32] is rounded to binary32. *)
Definition times_10 (single : bool) (m : spec_float) : spec_float :=
  if single then float32_mul m (float32_of_int 10) else float64_mul m (float64_of_int 10).

(** [max(0,int(np.round(m*10)))]. *)
Definition track_time (single : bool) (m : spec_float) : outcome Z :=
  t ← int_round (times_10 single m); Ret (Z.max 0 t).

(** [max(0,int(np.round(np.mean(t)*10)))] for one entry [t]: the mean of
    one number is that number, an [np.float32] for a float32 and an
    [np.float64] for an integer. *)
Definition own_time (t : scalar) : outcome Z := track_time (is_float32 t) (as_double t).

Section Decoder.

(** [Message.from_bytes] of the library: the exception it raises, or the
    bytes ([msg.bytes()]) of the message it builds. *)
Variable from_bytes : list Z -> exn + list Z.

(** [np.mean(np.asarray(ts))] for a list of entries: an [np.float32]
    when every entry is a float32, an [np.float64] otherwise. *)
Variable np_mean : list scalar -> spec_float.

Definition Message_from_bytes (bs : list Z) : outcome TrackMessage :=
  match from_bytes bs with
  | inr built => Ret {| tm_bytes := built; tm_time := 0 |}
  | inl e => Raise e
  end.

(** [max(0,int(np.round(np.mean(np.asarray(ts))*10)))]. *)
Definition mean_time (ts : list scalar) : outcome Z :=
  track_time (forallb is_float32 ts) (np_mean ts).

(** [for x in range(1,1+min(3,msg_array[4]))]: one byte and one copy of
    the record's time per turn. *)
Fixpoint aggregate (msg_array : list Z) (midi_timing : list scalar) (index : nat)
    (xs : list nat) (d : decoder) : outcome decoder :=
  match xs with
  | [] => Ret d
  | x :: xs' =>
      b ← getitem msg_array x;
      t ← getitem midi_timing index;
      aggregate msg_array midi_timing index xs'
        {| aggregator := aggregator d ++ [b];
           aggregator_times := aggregator_times d ++ [t];
           track := track d; printed := printed d |}
  end.

(** [try: track.append(msg with its time)  except: print(e)]. *)
Definition append_or_print (d : decoder) (body : outcome TrackMessage) : decoder :=
  match body with
  | Ret msg =>
      {| aggregator := aggregator d; aggregator_times := aggregator_times d;
         track := track d ++ [msg]; printed := printed d |}
  | Raise e =>
      {| aggregator := aggregator d; aggregator_times := aggregator_times d;
         track := track d; printed := printed d ++ [e] |}
  | Looping => d
  end.

(** The [if len(aggregator) > 0] block of the [else] branch. *)
Definition flush (d : decoder) : decoder :=
  if (0 <? length (aggregator d))%nat then
    let d' := append_or_print d
                (msg ← Message_from_bytes (aggregator d);
                 t ← mean_time (aggregator_times d);
                 Ret (set_time msg t)) in
    {| aggregator := []; aggregator_times := [];
       track := track d'; printed := printed d' |}
  else d.

(** The second [try] block of the [else] branch: the record's own message. *)
Definition emit_own (msg_array : list Z) (midi_timing : list scalar) (index : nat)
    (d : decoder) : decoder :=
  append_or_print d
    (m4 ← getitem msg_array 4;
     msg ← Message_from_bytes (take (Z.to_nat (Z.min 3 m4)) (drop 1 msg_array));
     t ← getitem midi_timing index;
     time ← own_time t;
     Ret (set_time msg time)).

(** The body of [for index,msg_array in enumerate(midi_notes)]. *)
Definition decode_record (midi_timing : list scalar) (index : nat) (row : list Z)
    (d : decoder) : outcome decoder :=
  let msg_array := np_packbits row in
  m0 ← getitem msg_array 0;
  if 0 <? m0 then
    m4 ← getitem msg_array 4;
    aggregate msg_array midi_timing index (seq 1 (Z.to_nat (Z.min 3 m4))) d
  else
    Ret (emit_own msg_array midi_timing index (flush d)).

Fixpoint decode_records (midi_timing : list scalar) (index : nat) (midi_notes : list (list Z))
    (d : decoder) : outcome decoder :=
  match midi_notes with
  | [] => Ret d
  | row :: rest =>
      d' ← decode_record midi_timing index row d;
      decode_records midi_timing (S index) rest d'
  end.

(** [create_midi_track]: the messages appended to the track.  What is left
    in the aggregation lists at the end is not written. *)
Definition create_midi_track (midi_notes : list (list Z)) (midi_timing : list scalar)
    : outcome (list TrackMessage) :=
  d ← decode_records midi_timing 0 midi_notes decoder_init;
  Ret (track d).

End Decoder.

(** An instance for [from_bytes], after the decoder of the library: the
    table of status bytes (channel messages 0x80-0xEF, system common and
    real-time messages, system exclusive 0xF0 .. 0xF7), data bytes in
    0..127.  The length is checked except for pitch wheel (0xE0-0xEF),
    quarter frame (0xF1) and song position (0xF2), which are built from
    their leading data bytes; too few of those is an [IndexError].  It is
    used to evaluate the decoder on concrete inputs. *)
Definition data_bytes_ok (data : list Z) : bool :=
  forallb (fun b => (0 <=? b) && (b <=? 127)) data.

Definition status_length (status : Z) : option nat :=
  if (128 <=? status) && (status <=? 191) then Some 3%nat
  else if (192 <=? status) && (status <=? 223) then Some 2%nat
  else if (224 <=? status) && (status <=? 239) then Some 3%nat
  else if (status =? 241) || (status =? 243) then Some 2%nat
  else if status =? 242 then Some 3%nat
  else if (status =? 246) || (status =? 248) || (status =? 250) || (status =? 251)
          || (status =? 252) || (status =? 254) || (status =? 255) then Some 1%nat
  else None.

Definition mido_from_bytes (bs : list Z) : exn + list Z :=
  match bs with
  | [] => inl ValueError
  | status :: data =>
      if status =? 240 then
        match rev data with
        | [] => inl ValueError
        | last :: body =>
            if (last =? 247) && data_bytes_ok body then inr bs else inl ValueError
        end
      else
        match status_length status with
        | None => inl ValueError
        | Some n =>
            if negb (data_bytes_ok data) then inl ValueError
            else if ((224 <=? status) && (status <=? 239)) || (status =? 242) then
              match data with
              | d0 :: d1 :: _ => inr [status; d0; d1]
              | _ => inl IndexError
              end
            else if status =? 241 then
              match data with
              | d0 :: _ => inr [status; d0]
              | [] => inl IndexError
              end
            else if (S (length data) =? n)%nat then inr bs
            else inl ValueError
        end
  end.

(** An instance for [np_mean], after the reduction of the library: the sum
    from 0 in the type of the array, one number after the other for fewer
    than 8, in eight lanes up to 128, in two halves above, then the
    division by the count. *)
Section Summation.

Variable prec emax : Z.

Definition sum_from (acc : spec_float) (l : list spec_float) : spec_float :=
  fold_left (SFadd prec emax) l acc.

(** The lanes [r] after the blocks of eight of [l] are added to them, and
    what is left of [l]. *)
Fixpoint add_blocks (blocks : nat) (r l : list spec_float)
    : list spec_float * list spec_float :=
  match blocks with
  | O => (r, l)
  | S k => add_blocks k (zip_with (SFadd prec emax) r (take 8 l)) (drop 8 l)
  end.

Definition lanes_sum (l : list spec_float) : spec_float :=
  let n := length l in
  let '(r, rest) := add_blocks ((n - n mod 8) / 8 - 1) (take 8 l) (drop 8 l) in
  let lane i := nth i r S754_nan in
  let add := SFadd prec emax in
  sum_from (add (add (add (lane 0%nat) (lane 1%nat)) (add (lane 2%nat) (lane 3%nat)))
                (add (add (lane 4%nat) (lane 5%nat)) (add (lane 6%nat) (lane 7%nat))))
           rest.

Fixpoint pairwise_sum (depth : nat) (l : list spec_float) : spec_float :=
  let n := length l in
  if (n <? 8)%nat then sum_from (S754_zero false) l
  else if (n <=? 128)%nat then lanes_sum l
  else
    match depth with
    | O => lanes_sum l
    | S k =>
        let n2 := (n / 2 - (n / 2) mod 8)%nat in
        SFadd prec emax (pairwise_sum k (take n2 l)) (pairwise_sum k (drop n2 l))
    end.

Definition mean_of (l : list spec_float) : spec_float :=
  SFdiv prec emax
        (SFadd prec emax (S754_zero false) (pairwise_sum (length l) l))
        (binary_normalize prec emax (Z.of_nat (length l)) 0 false).

End Summation.

Definition numpy_mean (ts : list scalar) : spec_float :=
  if forallb is_float32 ts then mean_of 24 128 (map as_double ts)
  else mean_of 53 1024 (map as_double ts).

(** ** numpy arrays: buffers, views and copies *)

(** An array is a view of a buffer: the rows [rows] x [width] that start
    [offset] scalars into the buffer [base].  Slicing and reshaping give a
    view of the same buffer; [astype] and [np.maximum] give a new buffer;
    [+=] and item assignment write the buffer of the view. *)
Record ndarray : Type := { base : nat; offset : nat; rows : nat; width : nat }.

Definition size (a : ndarray) : nat := rows a * width a.

(** A computation on the store of buffers. *)
Definition NP (A : Type) : Type := gmap nat (list Q) -> outcome A * gmap nat (list Q).

#[global] Instance NP_ret : MRet NP := fun A a h => (Ret a, h).
#[global] Instance NP_bind : MBind NP := fun A B k m h =>
  match m h with
  | (Ret a, h') => k a h'
  | (Raise e, h') => (Raise e, h')
  | (Looping, h') => (Looping, h')
  end.

Definition lift {A} (o : outcome A) : NP A := fun h => (o, h).

(** The scalars a view shows. *)
Definition contents (h : gmap nat (list Q)) (a : ndarray) : list Q :=
  match h !! base a with
  | Some buf => take (size a) (drop (offset a) buf)
  | None => []
  end.

(** Writing [vals] through a view. *)
Definition write (a : ndarray) (vals : list Q) (h : gmap nat (list Q)) : gmap nat (list Q) :=
  match h !! base a with
  | Some buf => <[base a := take (offset a) buf ++ vals ++ drop (offset a + size a)%nat buf]> h
  | None => h
  end.

(** A new buffer holding [vals]. *)
Definition alloc (r w : nat) (vals : list Q) : NP ndarray := fun h =>
  let l := fresh (dom h) in
  (Ret {| base := l; offset := 0; rows := r; width := w |}, <[l := vals]> h).

(** [a[lo:hi]] along the first axis, bounds clipped to the array. *)
Definition np_slice (a : ndarray) (lo hi : nat) : ndarray :=
  let lo' := Nat.min lo (rows a) in
  let hi' := Nat.min hi (rows a) in
  {| base := base a; offset := (offset a + lo' * width a)%nat;
     rows := (hi' - lo')%nat; width := width a |}.

(** [a.reshape(r,w)]: a view; [ValueError] when the sizes differ. *)
Definition np_reshape (a : ndarray) (r w : nat) : outcome ndarray :=
  if (size a =? r * w)%nat
  then Ret {| base := base a; offset := offset a; rows := r; width := w |}
  else Raise ValueError.

(** [a.astype(np.float32)]: always a copy. *)
Definition np_astype (a : ndarray) : NP ndarray := fun h =>
  alloc (rows a) (width a) (contents h a) h.

(** [a += vals], in place. *)
Definition np_iadd (a : ndarray) (vals : list Q) : NP unit := fun h =>
  (Ret (), write a (zip_with Qplus (contents h a) vals) h).

Definition relu (q : Q) : Q := if Qle_bool q 0 then 0%Q else q.

(** [np.maximum(0,a)]: a new array. *)
Definition np_maximum0 (a : ndarray) : NP ndarray := fun h =>
  alloc (rows a) (width a) (map relu (contents h a)) h.

(** [a[r] = np.zeros(..)], in place; [IndexError] out of range. *)
Definition np_zero_row (a : ndarray) (r : nat) : NP unit := fun h =>
  if (r <? rows a)%nat then
    (Ret (), write {| base := base a; offset := (offset a + r * width a)%nat;
                      rows := 1; width := width a |}
                   (replicate (width a) 0%Q) h)
  else (Raise IndexError, h).

(** [int(np.random.randint(n,size=1))] for the raw draw [r]. *)
Definition randint (r n : nat) : outcome nat :=
  if (n =? 0)%nat then Raise ValueError else Ret (r mod n)%nat.

(** [np.random.normal(scale=0.1,size=n)] for the noise source [noise]. *)
Definition normal (noise : nat -> Q) (n : nat) : list Q := map noise (seq 0 n).

(** [extract_samples].  [noise_midi], [noise_time] and [rnd] are the
    values the random generator hands out. *)
Definition extract_samples (noise_midi noise_time : nat -> Q) (rnd : nat)
    (midis_array midi_times_array : list ndarray) (p seq_length current_file : nat)
    : NP (ndarray * ndarray * ndarray * ndarray) :=
  m ← lift (getitem midis_array current_file);
  v ← lift (np_reshape (np_slice m p (p + seq_length)%nat) seq_length 40);
  input_midi_val ← np_astype v;
  t ← lift (getitem midi_times_array current_file);
  v ← lift (np_reshape (np_slice t p (p + seq_length)%nat) seq_length 1);
  input_time_val ← np_astype v;
  m ← lift (getitem midis_array current_file);
  target_midi_val ← lift (np_reshape (np_slice m (p + 1)%nat (p + seq_length + 1)%nat) seq_length 40);
  t ← lift (getitem midi_times_array current_file);
  target_time_val ← lift (np_reshape (np_slice t (p + 1)%nat (p + seq_length + 1)%nat) seq_length 1);
  np_iadd input_midi_val (normal noise_midi (seq_length * 5 * 8)%nat);;
  np_iadd input_time_val (normal noise_time seq_length);;
  input_midi_val ← np_maximum0 input_midi_val;
  input_time_val ← np_maximum0 input_time_val;
  random_int ← lift (randint rnd seq_length);
  np_zero_row input_midi_val random_int;;
  np_zero_row input_time_val random_int;;
  mret (input_midi_val, input_time_val, target_midi_val, target_time_val).

(** ** The training loop *)

(** The position that Python's [l[i]] addresses: a negative index counts
    from the end; [IndexError] out of range. *)
Definition py_pos {A} (l : list A) (i : Z) : outcome nat :=
  if (0 <=? i) && (i <? Z.of_nat (length l)) then Ret (Z.to_nat i)
  else if (i <? 0) && (- Z.of_nat (length l) <=? i) then Ret (Z.to_nat (Z.of_nat (length l) + i))
  else Raise IndexError.

Definition py_getitem {A} (l : list A) (i : Z) : outcome A :=
  n ← py_pos l i; getitem l n.

Definition py_setitem {A} (l : list A) (i : Z) (v : A) : outcome (list A) :=
  n ← py_pos l i; Ret (<[n := v]> l).

(** [l[1:hi]] for a bound [hi >= 0]. *)
Definition slice_1 {A} (hi : nat) (l : list A) : list A := take (hi - 1) (drop 1 l).

(** The value of a name, [NameError] when it is not bound. *)
Definition name_value {A} (v : option A) : outcome A :=
  match v with
  | Some a => Ret a
  | None => Raise NameError
  end.

Section Training.

(** The recurrent state of one LSTM and what [sess.run(zero_state..)] gives. *)
Context {State : Type}.
Variable zero_state1 zero_state2 : State.

Variable MidiFile_open : string -> exn + MidiFile.
Variable file_list : list string.

(** The hyperparameters. *)
Variable seq_length : nat.
Variable max_midi_files_in_memory : nat.
Variable loading_rate : Q.

(** The variables of the notebook that the loop reads and writes.  A name
    that no cell has assigned yet is [None]. *)
Record pool : Type := {
  midis_array : list ndarray;
  midi_times_array : list ndarray;
  p_list : list Z;
  rnn_state1_list : list State;
  rnn_state2_list : list State;
  loaded_files : option (list nat);
  file_choice : option nat;
  current_file : Z
}.

(** The cell "Tensorflow Session, Initialisations": one file, loaded from
    [file_list[0]]; [loaded_files] and [file_choice] are assigned nowhere. *)
Definition initial_pool (first_midi_array first_midi_times_array : ndarray) : pool :=
  {| midis_array := [first_midi_array];
     midi_times_array := [first_midi_times_array];
     p_list := [0];
     rnn_state1_list := [zero_state1];
     rnn_state2_list := [zero_state2];
     loaded_files := None;
     file_choice := None;
     current_file := 0 |}.

(** What the random generator and the network hand out in one iteration:
    the draw before the loop, per turn of the outer [while] the draw of
    [current_file] and the uniform sample, the draws of [file_choice], and
    the states that [sess.run] returns. *)
Record draws : Type := {
  first_file : nat;
  resets : list (nat * Q);
  choices : list nat;
  states1f_val : State;
  states2f_val : State
}.

(** The [try] block of the inner [while]: the new [file_choice] and
    [file_loaded]. *)
Definition try_candidate (r : nat) (fc : option nat) (file_loaded : bool)
    : option nat * bool :=
  match randint r (length file_list) with
  | Ret c =>
      match (name ← getitem file_list c; is_midi_0 MidiFile_open name) with
      | Ret true =>
          match name ← getitem file_list c; MidiFile_ MidiFile_open name with
          | Ret _ => (Some c, true)
          | _ => (Some c, file_loaded)
          end
      | _ => (Some c, file_loaded)
      end
  | _ => (fc, file_loaded)
  end.

(** [while (not file_loaded or (file_choice in loaded_files))]. *)
Fixpoint choose_file (cs : list nat) (file_loaded : bool) (fc : option nat)
    (lf : option (list nat)) : outcome (option nat * list nat) :=
  again ← (if negb file_loaded then Ret true
           else c ← name_value fc; l ← name_value lf; Ret (bool_decide (c ∈ l)));
  if again : bool then
    match cs with
    | [] => Looping
    | r :: cs' =>
        let '(fc', file_loaded') := try_candidate r fc file_loaded in
        choose_file cs' file_loaded' fc' lf
    end
  else Ret (fc, cs).

(** The block under [if (np.random.uniform() > loading_rate)]. *)
Definition rotation (cs : list nat) (s : pool) : outcome (pool * list nat) :=
  '(fc, cs') ← choose_file cs false (file_choice s) (loaded_files s);
  let p_list' := p_list s ++ [0] in
  let rnn_state1_list' := rnn_state1_list s ++ [zero_state1] in
  let rnn_state2_list' := rnn_state2_list s ++ [zero_state2] in
  s' ← (if (max_midi_files_in_memory <? length (midis_array s))%nat then
          l ← name_value (loaded_files s);
          Ret {| midis_array := slice_1 max_midi_files_in_memory (midis_array s);
                 midi_times_array := slice_1 max_midi_files_in_memory (midi_times_array s);
                 p_list := slice_1 max_midi_files_in_memory p_list';
                 rnn_state1_list := slice_1 max_midi_files_in_memory rnn_state1_list';
                 rnn_state2_list := slice_1 max_midi_files_in_memory rnn_state2_list';
                 loaded_files := Some (slice_1 max_midi_files_in_memory l);
                 file_choice := fc;
                 current_file := current_file s |}
        else
          Ret {| midis_array := midis_array s;
                 midi_times_array := midi_times_array s;
                 p_list := p_list';
                 rnn_state1_list := rnn_state1_list';
                 rnn_state2_list := rnn_state2_list';
                 loaded_files := loaded_files s;
                 file_choice := fc;
                 current_file := current_file s |});
  Ret ({| midis_array := midis_array s';
          midi_times_array := midi_times_array s';
          p_list := p_list s';
          rnn_state1_list := rnn_state1_list s';
          rnn_state2_list := rnn_state2_list s';
          loaded_files := loaded_files s';
          file_choice := file_choice s';
          current_file := Z.of_nat (length (midis_array s')) - 1 |}, cs').

(** The condition of the outer [while]:
    [p_list[current_file] + seq_length + 1 > midis_array[current_file].shape[0]]. *)
Definition exhausted (s : pool) : outcome bool :=
  p ← py_getitem (p_list s) (current_file s);
  a ← py_getitem (midis_array s) (current_file s);
  Ret (Z.of_nat (rows a) <? p + Z.of_nat seq_length + 1).

(** The outer [while]: reset the exhausted stream, draw another, and with
    a uniform sample above [loading_rate] run the rotation. *)
Fixpoint select_stream (rs : list (nat * Q)) (cs : list nat) (s : pool)
    : outcome (pool * list nat) :=
  e ← exhausted s;
  if e : bool then
    match rs with
    | [] => Looping
    | (r, u) :: rs' =>
        pl ← py_setitem (p_list s) (current_file s) 0;
        s1 ← py_setitem (rnn_state1_list s) (current_file s) zero_state1;
        s2 ← py_setitem (rnn_state2_list s) (current_file s) zero_state2;
        c ← randint r (length (midis_array s));
        let s' := {| midis_array := midis_array s;
                     midi_times_array := midi_times_array s;
                     p_list := pl; rnn_state1_list := s1; rnn_state2_list := s2;
                     loaded_files := loaded_files s;
                     file_choice := file_choice s;
                     current_file := Z.of_nat c |} in
        '(s'', cs') ← (if negb (Qle_bool u loading_rate) then rotation cs s'
                       else Ret (s', cs));
        select_stream rs' cs' s''
    end
  else Ret (s, cs).

(** One turn of the [for iteration in ..] loop.  The window extraction
    ([extract_samples], on the store) and the network do not assign the
    variables of the loop; the states that [sess.run] returns are part of
    the draws. *)
Definition train_iteration (d : draws) (s : pool) : outcome pool :=
  c ← randint (first_file d) (length (midis_array s));
  '(s1, _) ← select_stream (resets d) (choices d)
      {| midis_array := midis_array s; midi_times_array := midi_times_array s;
         p_list := p_list s;
         rnn_state1_list := rnn_state1_list s; rnn_state2_list := rnn_state2_list s;
         loaded_files := loaded_files s; file_choice := file_choice s;
         current_file := Z.of_nat c |};
  p ← py_getitem (p_list s1) (current_file s1);
  _ ← py_getitem (rnn_state2_list s1) (current_file s1);
  _ ← py_getitem (rnn_state1_list s1) (current_file s1);
  l1 ← py_setitem (rnn_state1_list s1) (current_file s1) (states1f_val d);
  l2 ← py_setitem (rnn_state2_list s1) (current_file s1) (states2f_val d);
  pl ← py_setitem (p_list s1) (current_file s1) (p + Z.of_nat seq_length);
  Ret {| midis_array := midis_array s1; midi_times_array := midi_times_array s1;
         p_list := pl; rnn_state1_list := l1; rnn_state2_list := l2;
         loaded_files := loaded_files s1; file_choice := file_choice s1;
         current_file := current_file s1 |}.

(** Several iterations in a row, one [draws] each. *)
Fixpoint train (ds : list draws) (s : pool) : outcome pool :=
  match ds with
  | [] => Ret s
  | d :: ds' => s' ← train_iteration d s; train ds' s'
  end.

End Training.

(** ** The generation cell *)

(** [a[0]]: a view of the first row; [IndexError] on an array without rows. *)
Definition np_row0 (a : ndarray) : outcome ndarray :=
  if (0 <? rows a)%nat
  then Ret {| base := base a; offset := offset a; rows := 1; width := width a |}
  else Raise IndexError.

(** The scalars a view shows, read from the store. *)
Definition np_read (a : ndarray) : NP (list Q) := fun h => (Ret (contents h a), h).

(** The conversion of a float to [int32] that an assignment into an
    [int32] array performs: truncation toward zero, for a value within the
    range of [int32]. *)
Definition to_int32 (q : Q) : Z := Z.quot (Qnum q) (Z.pos (Qden q)).

(** [a[0] = vals] for [vals] of shape [(1,n)], in place: [n] is the width
    of [a], or 1 and the scalar is broadcast; [ValueError] otherwise. *)
Definition np_set_row0 (a : ndarray) (vals : list Q) : NP unit := fun h =>
  match np_row0 a with
  | Ret v =>
      if (length vals =? width a)%nat then (Ret (), write v vals h)
      else if (length vals =? 1)%nat
           then (Ret (), write v (replicate (width a) (hd 0%Q vals)) h)
           else (Raise ValueError, h)
  | Raise e => (Raise e, h)
  | Looping => (Looping, h)
  end.

(** The two lists that the cell builds.  An entry of [midi_time_vals] is
    an array of one number, of type [int32] (the first) or [float32]; it
    is kept as that number. *)
Record generated : Type := {
  midi_data_vals : list (list Z);
  midi_time_vals : list scalar
}.

(** The body of [for t in tqdm(range(generated_midi_length))] for the rows
    [midi_data_current[0]] and [midi_time_current[0]] that the network
    returns.  The record array is an [int32] array, the time array a float
    array. *)
Definition generation_step (input_midi_val input_time_val : ndarray)
    (midi_data_current_0 midi_time_current_0 : list Q) (g : generated) : NP generated :=
  d ← lift (if (length midi_data_current_0 =? 5 * 8)%nat
            then Ret midi_data_current_0 else Raise ValueError);
  np_set_row0 input_midi_val (map (fun x => inject_Z (to_int32 (relu x))) d);;
  t ← lift (if (length midi_time_current_0 =? 1)%nat
            then Ret midi_time_current_0 else Raise ValueError);
  np_set_row0 input_time_val (map relu t);;
  mret {| midi_data_vals :=
            midi_data_vals g ++ [map (fun x => Z.max 0 (np_round x)) midi_data_current_0];
          midi_time_vals :=
            midi_time_vals g
            ++ [float32 (float32_of_int (Z.max 0 (np_round (hd 0%Q midi_time_current_0))))] |}.

Fixpoint generation_loop (input_midi_val input_time_val : ndarray)
    (outs : list (list Q * list Q)) (g : generated) : NP generated :=
  match outs with
  | [] => mret g
  | (midi_data_current_0, midi_time_current_0) :: outs' =>
      g' ← generation_step input_midi_val input_time_val
             midi_data_current_0 midi_time_current_0 g;
      generation_loop input_midi_val input_time_val outs' g'
  end.

(** The cell up to the call of [create_midi_track]; [outs] holds what the
    network returns in each turn of the loop. *)
Definition generation (midis_array midi_times_array : list ndarray) (current_file : Z)
    (seq_length : nat) (outs : list (list Q * list Q)) : NP generated :=
  m ← lift (py_getitem midis_array current_file);
  input_midi_val ← lift (np_reshape (np_slice m 0 seq_length) seq_length (5 * 8));
  t ← lift (py_getitem midi_times_array current_file);
  input_time_val ← lift (np_reshape (np_slice t 0 seq_length) seq_length 1);
  r ← lift (np_row0 input_midi_val);
  first_midi ← np_read r;
  r ← lift (np_row0 input_time_val);
  first_time ← np_read r;
  generation_loop input_midi_val input_time_val outs
    {| midi_data_vals := [map np_round first_midi];
       midi_time_vals := [int32 (np_round (hd 0%Q first_time))] |}.

(** The whole cell: the track that [create_midi_track] builds from the
    two lists. *)
Definition generate_track (from_bytes : list Z -> exn + list Z)
    (np_mean : list scalar -> spec_float)
    (midis_array midi_times_array : list ndarray) (current_file : Z)
    (seq_length : nat) (outs : list (list Q * list Q)) : NP (list TrackMessage) :=
  g ← generation midis_array midi_times_array current_file seq_length outs;
  lift (create_midi_track from_bytes np_mean (midi_data_vals g) (midi_time_vals g)).

(** ** Notions used in the statements *)

(** The consecutive chunks of at most three bytes of a byte sequence. *)
Fixpoint chunks3 (bs : list Z) : list (list Z) :=
  match bs with
  | a :: b :: c :: rest => [a; b; c] :: chunks3 rest
  | [] => []
  | _ => [bs]
  end.

(** The record of one chunk: flag, three byte slots, count of valid bytes. *)
Definition record_of (flag : Z) (chunk : list Z) : list Z :=
  [flag; nth 0 chunk 0; nth 1 chunk 0; nth 2 chunk 0; Z.of_nat (length chunk)].

(** The flag that [load_byte] writes for a message. *)
Definition continuation (x : Message) : Z :=
  if 3 <? Z.of_nat (length (msg_bytes x)) then 1 else 0.

(** The double [x.time*ticks_per_beat*2] that [load_byte] appends for a
    message, and the time that [load_midi_file] stores for it: the
    binary32 nearest to that double. *)
Definition time_product (ticks_per_beat : Z) (x : Message) : spec_float :=
  float64_mul (float64_mul (msg_time x) (float64_of_int ticks_per_beat)) (float64_of_int 2).
Definition stored_time (ticks_per_beat : Z) (x : Message) : spec_float :=
  astype_float32 (time_product ticks_per_beat x).

(** Every entry is a byte value. *)
Definition all_bytes (bs : list Z) : Prop := Forall (fun b => 0 <= b < 256) bs.

(** What a [try] block appends to the track for the bytes [bs] and the
    time computation [time]: the message that the library builds, when it
    builds one and the time converts to an integer; nothing otherwise. *)
Definition appended (from_bytes : list Z -> exn + list Z) (bs : list Z) (time : outcome Z)
    : list TrackMessage :=
  match from_bytes bs, time with
  | inr built, Ret t => [ {| tm_bytes := built; tm_time := t |} ]
  | _, _ => []
  end.

(** What the [if len(aggregator) > 0] block appends to the track. *)
Definition flushed (from_bytes : list Z -> exn + list Z) (np_mean : list scalar -> spec_float)
    (d : decoder) : list TrackMessage :=
  if (0 <? length (aggregator d))%nat
  then appended from_bytes (aggregator d) (mean_time np_mean (aggregator_times d))
  else [].

(** What the second [try] block appends for the bytes and time of a record. *)
Definition own_message (from_bytes : list Z -> exn + list Z) (bs : list Z) (t : scalar)
    : list TrackMessage :=
  appended from_bytes bs (own_time t).

(** The valid bytes of a packed record: [msg_array[1:1+min(3,msg_array[4])]]
    for the slots [b1 b2 b3] and the count [m4]. *)
Definition valid_bytes (b1 b2 b3 m4 : Z) : list Z :=
  take (Z.to_nat (Z.min 3 m4)) [b1; b2; b3].


(** The parallel lists of a pool have [n] entries each. *)
Definition aligned {State : Type} (s : @pool State) (n : nat) : Prop :=
  length (midis_array s) = n /\ length (p_list s) = n /\
  length (rnn_state1_list s) = n /\ length (rnn_state2_list s) = n.

(** [m], run from any store that extends [h0], ends in a store that
    extends [h0] (whatever its outcome), and a value it returns satisfies
    [post]. *)
Definition preserves {A} (h0 : gmap nat (list Q)) (m : NP A) (post : A -> Prop) : Prop :=
  forall h : gmap nat (list Q),
    h0 ⊆ h -> h0 ⊆ snd (m h) /\ forall a : A, fst (m h) = Ret a -> post a.

(** [m], run from the store [h], satisfies [post] on the value it returns
    and the store it ends in, when it returns. *)
Definition wp {A} (m : NP A) (post : A -> gmap nat (list Q) -> Prop)
    (h : gmap nat (list Q)) : Prop :=
  match m h with
  | (Ret a, h') => post a h'
  | _ => True
  end.

(** The array [a] is backed by the store: its buffer exists and holds all
    of its rows. *)
Definition backed (h : gmap nat (list Q)) (a : ndarray) : Prop :=
  exists buf : list Q, h !! base a = Some buf /\ (offset a + size a <= length buf)%nat.

(** The view [a[p:p+n].reshape(n,w)] of an array of width [w] that has
    the rows [p .. p+n-1]. *)
Definition window (a : ndarray) (p n w : nat) : ndarray :=
  {| base := base a; offset := (offset a + p * w)%nat; rows := n; width := w |}.

(** The scalars of a buffer after row [r] of width [w] is set to zero. *)
Definition set_row (r w : nat) (l : list Q) : list Q :=
  take (r * w) l ++ replicate w 0%Q ++ drop (r * w + w) l.

(** Whether timestep [k] of a window shows a record of zeros and a time
    of zero. *)
Definition zero_timestep (h : gmap nat (list Q)) (input_midi_val input_time_val : ndarray)
    (k : nat) : bool :=
  forallb (Qeq_bool 0) (take 40 (drop (k * 40) (contents h input_midi_val)))
  && forallb (Qeq_bool 0) (take 1 (drop k (contents h input_time_val))).

(** The timesteps of a window at which both are zero. *)
Definition zero_timesteps (h : gmap nat (list Q)) (input_midi_val input_time_val : ndarray)
    : list nat :=
  List.filter (zero_timestep h input_midi_val input_time_val) (seq 0 (rows input_midi_val)).

(** The bytes that the decoder reads from a row:
    [msg_array[1:1+min(3,msg_array[4])]] of the packed row. *)
Definition row_bytes (row : list Z) : list Z :=
  match np_packbits row !! 4%nat with
  | Some m4 => take (Z.to_nat (Z.min 3 m4)) (drop 1 (np_packbits row))
  | None => []
  end.

(** What holds of every message that [create_midi_track] puts on the
    track: a time that is not negative, and the bytes of a message that
    the library built from bytes it accepted. *)
Definition track_ok (from_bytes : list Z -> exn + list Z) (m : TrackMessage) : Prop :=
  0 <= tm_time m /\ exists bs : list Z, from_bytes bs = inr (tm_bytes m).

(** A row whose packed form has its flag set. *)
Definition flag_set (row : list Z) : Prop :=
  exists m0 : Z, np_packbits row !! 0%nat = Some m0 /\ 0 < m0.


(** The stored time as the specification words it: the number [t] is the
    product of the message's time, the ticks per beat and 2. *)
Definition exact_product (ticks_per_beat : Z) (x : Message) (t : spec_float) : Prop :=
  exists time stored : Q,
    float_value (msg_time x) = Some time /\
    float_value t = Some stored /\
    (stored == time * inject_Z ticks_per_beat * 2)%Q.

(** The buffer [buf] with [vals] written from position [off] on. *)
Definition put (off : nat) (vals buf : list Q) : list Q :=
  take off buf ++ vals ++ drop (off + length vals) buf.

(** What the generation loop appends to its two lists for one output of
    the network, and what it writes into the record array. *)
Definition generated_row (out : list Q * list Q) : list Z :=
  map (fun x => Z.max 0 (np_round x)) (fst out).
Definition generated_time (out : list Q * list Q) : scalar :=
  float32 (float32_of_int (Z.max 0 (np_round (hd 0%Q (snd out))))).
Definition fed_back (d : list Q) : list Q := map (fun x => inject_Z (to_int32 (relu x))) d.

(** An output of the shapes that the graph gives: 40 scalars and one. *)
Definition output_shaped (out : list Q * list Q) : Prop :=
  length (fst out) = 40%nat /\ length (snd out) = 1%nat.

(** ** Concrete inputs *)


(** A note-on one tick after the previous message, at 480 ticks per beat
    and a tempo of 600000 microseconds per beat: its time is the double
    nearest to 0.00125, [5764607523034235 * 2^-62]. *)
Definition note_on_tick : Message :=
  {| msg_bytes := [144; 64; 100]; msg_time := S754_finite false 5764607523034235 (-62) |}.

(** A note-on of three bytes, one second after the previous message. *)
Definition note_on_1 : Message :=
  {| msg_bytes := [144; 64; 100]; msg_time := float64_of_int 1 |}.


(** A file system in which every name parses as a type-0 file. *)
Definition every_file_ok (filename : string) : exn + MidiFile :=
  inr {| mf_type := 0; mf_ticks_per_beat := 480; mf_messages := [note_on_1] |}.

Definition four_files : list string := ["a.mid"; "b.mid"; "c.mid"; "d.mid"]%string.

(** The record array and the time array of a stream of [n] records, in
    the buffers [2 * k] and [2 * k + 1]. *)
Definition records (k n : nat) : ndarray :=
  {| base := 2 * k; offset := 0; rows := n; width := 40 |}.
Definition times (k n : nat) : ndarray :=
  {| base := 2 * k + 1; offset := 0; rows := n; width := 1 |}.

(** The pool as the notebook sets it up, with a first file of 5 records. *)
Definition notebook_pool : @pool unit := initial_pool tt tt (records 0 5) (times 0 5).

(** The same pool in a session in which [loaded_files] has been bound to
    the empty list by hand. *)
Definition bound_pool : @pool unit :=
  {| midis_array := [records 0 5]; midi_times_array := [times 0 5];
     p_list := [0]; rnn_state1_list := [tt]; rnn_state2_list := [tt];
     loaded_files := Some []; file_choice := None; current_file := 0 |}.

(** The pool of the notebook with the cursor of its stream at [p]. *)
Definition notebook_pool_at (p : Z) : @pool unit :=
  {| midis_array := [records 0 5]; midi_times_array := [times 0 5];
     p_list := [p]; rnn_state1_list := [tt]; rnn_state2_list := [tt];
     loaded_files := None; file_choice := None; current_file := 0 |}.

(** Draws that pick stream 0, draw it again in the loop with a uniform
    sample of 1, above every loading rate below 1, and then draw file 1. *)
Definition draw_rotation : @draws unit :=
  {| first_file := 0; resets := [(0%nat, 1%Q)]; choices := [1%nat];
     states1f_val := tt; states2f_val := tt |}.

(** Draws that pick stream 0 and draw it again in the loop, with a
    uniform sample of 0, which starts no rotation. *)
Definition draw_reset : @draws unit :=
  {| first_file := 0; resets := [(0%nat, 0%Q)]; choices := [];
     states1f_val := tt; states2f_val := tt |}.

(** Draws that pick stream 0 and hold nothing for the loops. *)
Definition draw_0 : @draws unit :=
  {| first_file := 0; resets := []; choices := []; states1f_val := tt; states2f_val := tt |}.

(** A store with one stream of three records (note-on, note-off, note-on)
    in buffer 0 and their times, all zero, in buffer 1. *)
Definition window_store : gmap nat (list Q) :=
  <[1%nat := [0; 0; 0]%Q]>
    (<[0%nat := map inject_Z (flat_map np_unpackbits
                   [[0; 144; 64; 100; 3]; [0; 128; 64; 0; 3]; [0; 144; 65; 100; 3]])]> ∅).

(** A window of two timesteps at cursor 0 of that stream, with every
    noise sample equal to [noise] and the raw draw [rnd] for the timestep. *)
Definition window_run (noise : Q) (rnd : nat)
    : outcome (ndarray * ndarray * ndarray * ndarray) * gmap nat (list Q) :=
  extract_samples (fun _ => noise) (fun _ => noise) rnd
                  [records 0 3] [times 0 3] 0 2 0 window_store.

(** Two outputs of a network: every record scalar 1/2 with the time 3/2,
    then every record scalar 1/4 with the time 5/2. *)
Definition two_outputs : list (list Q * list Q) :=
  [(replicate 40 (1 # 2), [3 # 2]); (replicate 40 (1 # 4), [5 # 2])]%Q.

(** The rows of a set-tempo meta message (two, flag set) and of a note-on. *)
Definition tempo_rows : list (list Z) :=
  map np_unpackbits [[1; 255; 81; 3; 3]; [1; 7; 161; 32; 3]].
Definition note_on_rows : list (list Z) := map np_unpackbits [[0; 144; 64; 100; 3]].



(** A file of two messages: one without bytes, then a note-on. *)
Definition silent_file : MidiFile :=
  {| mf_type := 0; mf_ticks_per_beat := 480;
     mf_messages := [ {| msg_bytes := []; msg_time := float64_of_int 1 |};
                      {| msg_bytes := [144; 64; 100]; msg_time := float64_of_int 0 |} ] |}.

(* ===================================================================== *)
(** * Part II: properties                                                 *)
(* ===================================================================== *)

(** ** Outcomes *)

Lemma getitem_Some {A} (l : list A) (i : nat) (a : A) :
  l !! i = Some a -> getitem l i = Ret a.
Proof. intros H. unfold getitem. by rewrite H. Qed.

Lemma getitem_Ret {A} (l : list A) (i : nat) (a : A) :
  getitem l i = Ret a -> l !! i = Some a.
Proof. unfold getitem. destruct (l !! i); [by intros [= ->] | discriminate]. Qed.

(** ** The loader *)

Lemma list_ind3 {A} (P : list A -> Prop) :
  P [] -> (forall a, P [a]) -> (forall a b, P [a; b]) ->
  (forall a b c l, P l -> P (a :: b :: c :: l)) ->
  forall l, P l.
Proof.
  intros H0 H1 H2 H3. fix IH 1.
  intros [|a [|b [|c l]]]; [exact H0 | apply H1 | apply H2 | apply H3, IH].
Qed.

(** The loop over the bytes, started at a multiple of three with an empty
    record under construction, appends the records of the chunks. *)
Lemma load_bytes_chunks (tpb : Z) (x : Message) (bs : list Z) :
  forall (ind : nat) (s : loader),
    (ind mod 3 = 0)%nat ->
    (ind + length bs = length (msg_bytes x))%nat ->
    cur s = zeros5 ->
    load_bytes tpb x ind bs s =
      {| cur := zeros5;
         midi_data := midi_data s ++ map (record_of (continuation x)) (chunks3 bs);
         midi_time := midi_time s ++ replicate (length (chunks3 bs)) (time_product tpb x) |}.
Proof.
  induction bs as [|a|a b|a b c l IH] using list_ind3; intros ind [c0 md mt] Hm Hl Hc;
    cbn [cur midi_data midi_time] in *; subst c0.
  - cbn. by rewrite !app_nil_r.
  - cbn [load_bytes length] in *. unfold load_byte. cbn [cur midi_data midi_time].
    rewrite Hm.
    replace (ind + 1 =? length (msg_bytes x))%nat with true
      by (symmetry; apply Nat.eqb_eq; lia).
    rewrite orb_true_r. unfold continuation, time_product.
    destruct (3 <? Z.of_nat (length (msg_bytes x))); reflexivity.
  - cbn [load_bytes length] in *. unfold load_byte. cbn [cur midi_data midi_time].
    rewrite Hm.
    replace ((ind + 1) mod 3 =? 0)%nat with false by (symmetry; apply Nat.eqb_neq; lia).
    replace (ind + 1 =? length (msg_bytes x))%nat with false
      by (symmetry; apply Nat.eqb_neq; lia).
    replace (S ind + 1 =? length (msg_bytes x))%nat with true
      by (symmetry; apply Nat.eqb_eq; lia).
    replace (S ind mod 3)%nat with 1%nat by lia.
    rewrite orb_true_r. unfold continuation, time_product.
    destruct (3 <? Z.of_nat (length (msg_bytes x))); reflexivity.
  - cbn [load_bytes length] in *. unfold load_byte at 1 2 3. cbn [cur midi_data midi_time].
    rewrite Hm.
    replace ((ind + 1) mod 3 =? 0)%nat with false by (symmetry; apply Nat.eqb_neq; lia).
    replace (ind + 1 =? length (msg_bytes x))%nat with false
      by (symmetry; apply Nat.eqb_neq; lia).
    replace ((S ind + 1) mod 3 =? 0)%nat with false by (symmetry; apply Nat.eqb_neq; lia).
    replace (S ind + 1 =? length (msg_bytes x))%nat with false
      by (symmetry; apply Nat.eqb_neq; lia).
    replace ((S (S ind) + 1) mod 3 =? 0)%nat with true by (symmetry; apply Nat.eqb_eq; lia).
    replace (S ind mod 3)%nat with 1%nat by lia.
    replace (S (S ind) mod 3)%nat with 2%nat by lia.
    cbn [orb].
    rewrite IH; cbn [cur midi_data midi_time]; [| lia | lia | reflexivity].
    cbn [chunks3 map length replicate].
    rewrite <- !app_assoc. cbn [app].
    unfold continuation, time_product.
    destruct (3 <? Z.of_nat (length (msg_bytes x))); reflexivity.
Qed.

Lemma load_message_chunks (tpb : Z) (s : loader) (x : Message) :
  load_message tpb s x =
    {| cur := zeros5;
       midi_data := midi_data s ++ map (record_of (continuation x)) (chunks3 (msg_bytes x));
       midi_time := midi_time s
                    ++ replicate (length (chunks3 (msg_bytes x))) (time_product tpb x) |}.
Proof. unfold load_message. by rewrite load_bytes_chunks. Qed.

Lemma encode_event_chunks (tpb : Z) (x : Message) :
  encode_event tpb x =
    (map (record_of (continuation x)) (chunks3 (msg_bytes x)),
     replicate (length (chunks3 (msg_bytes x))) (stored_time tpb x)).
Proof.
  unfold encode_event. rewrite load_message_chunks. cbn [midi_data midi_time app].
  unfold stored_time. generalize (length (chunks3 (msg_bytes x))) as n.
  induction n as [|n IH]; [reflexivity |]. cbn [replicate map]. by injection IH as ->.
Qed.

Lemma chunks3_length (bs : list Z) :
  length (chunks3 bs) = ((length bs + 2) / 3)%nat.
Proof.
  induction bs as [|a|a b|a b c l IH] using list_ind3; try reflexivity.
  cbn [chunks3 length]. rewrite IH.
  replace (S (S (S (length l))) + 2)%nat with (length l + 2 + 1 * 3)%nat by lia.
  rewrite Nat.div_add by lia. lia.
Qed.

(** The [i]-th chunk holds three bytes, or what is left of the sequence. *)
Lemma chunks3_lookup_length (bs : list Z) :
  forall (i : nat) (c : list Z),
    chunks3 bs !! i = Some c -> length c = Nat.min 3 (length bs - 3 * i).
Proof.
  induction bs as [|a|a b|a b c0 l IH] using list_ind3; intros i c H.
  - discriminate.
  - destruct i; [injection H as <-; reflexivity | discriminate].
  - destruct i; [injection H as <-; reflexivity | discriminate].
  - destruct i as [|i]; cbn [chunks3] in H.
    + injection H as <-. cbn [length]. lia.
    + cbn in H. apply IH in H. rewrite H. cbn [length]. lia.
Qed.

(** The chunks, put together again, are the byte sequence. *)
Lemma chunks3_concat (bs : list Z) : concat (chunks3 bs) = bs.
Proof.
  induction bs as [|a|a b|a b c l IH] using list_ind3; try reflexivity.
  cbn [chunks3 concat app]. by rewrite IH.
Qed.

(** C3, as the code has it.  A message of [L] bytes contributes
    [ceil(L/3)] records, written [(L + 2) / 3]; each carries the flag 1
    when [L > 3] and 0 otherwise; the count of valid bytes is 3 in every
    record but the last, where it is [L - 3 * (ceil(L/3) - 1)]; and there
    is one stored time per record, each the binary32 nearest to the double
    [x.time * ticks_per_beat * 2]. *)
Theorem encode_chunking (tpb : Z) (x : Message) :
  let L := length (msg_bytes x) in
  let n := ((L + 2) / 3)%nat in
  length (fst (encode_event tpb x)) = n /\
  length (snd (encode_event tpb x)) = n /\
  (forall (i : nat) (rec : list Z),
      fst (encode_event tpb x) !! i = Some rec ->
      length rec = 5%nat /\
      rec !! 0%nat = Some (if 3 <? Z.of_nat L then 1 else 0) /\
      rec !! 4%nat = Some (if (S i <? n)%nat then 3
                           else Z.of_nat L - 3 * (Z.of_nat n - 1))) /\
  (forall (i : nat) (t : spec_float),
      snd (encode_event tpb x) !! i = Some t ->
      t = astype_float32 (float64_mul (float64_mul (msg_time x) (float64_of_int tpb))
                                      (float64_of_int 2))).
Proof.
  intros L n. rewrite encode_event_chunks. cbn [fst snd].
  rewrite length_map, length_replicate, chunks3_length.
  repeat split; try reflexivity.
  - apply list_lookup_fmap_Some in H as (c & -> & Hc). reflexivity.
  - apply list_lookup_fmap_Some in H as (c & -> & Hc). reflexivity.
  - apply list_lookup_fmap_Some in H as (c & -> & Hc).
    pose proof (lookup_lt_Some _ _ _ Hc) as Hi. rewrite chunks3_length in Hi.
    apply chunks3_lookup_length in Hc.
    unfold record_of. cbn [lookup list_lookup]. f_equal. rewrite Hc.
    fold L in Hi |- *. fold n in Hi. subst n.
    destruct (Nat.ltb_spec (S i) ((L + 2) / 3)); lia.
  - intros i t H. apply lookup_replicate in H as [-> _]. reflexivity.
Qed.

(** C3, as the specification states it, fails.  A note-on 0.00125 seconds after
    the previous message, at 480 ticks per beat: the product is the double
    1.2, the stored time is the binary32 1.2000000476837158.  The stored
    time is neither the product as Python computes it nor the product of
    the three numbers. *)
Lemma stored_time_not_the_product :
  exists t : spec_float,
    snd (encode_event 480 note_on_tick) !! 0%nat = Some t /\
    t = S754_finite false 10066330 (-23) /\
    time_product 480 note_on_tick = S754_finite false 5404319552844595 (-52) /\
    t <> time_product 480 note_on_tick /\
    ~ exact_product 480 note_on_tick t.
Proof.
  exists (S754_finite false 10066330 (-23)).
  split; [vm_compute; reflexivity |]. split; [reflexivity |].
  split; [vm_compute; reflexivity |]. split; [vm_compute; discriminate |].
  intros (v & tv & Hv & Htv & Heq). vm_compute in Hv, Htv.
  injection Hv as <-. injection Htv as <-. vm_compute in Heq. discriminate.
Qed.

(** [load_messages] concatenates what the messages contribute, in order. *)
Lemma load_fold_concat (tpb : Z) (midi : list Message) :
  forall s : loader,
    cur s = zeros5 ->
    fold_left (load_message tpb) midi s =
      {| cur := zeros5;
         midi_data := midi_data s ++ flat_map (fun x => fst (encode_event tpb x)) midi;
         midi_time :=
           midi_time s
           ++ flat_map (fun x => replicate (length (chunks3 (msg_bytes x))) (time_product tpb x))
                       midi |}.
Proof.
  induction midi as [|x midi IH]; intros [c md mt] Hc; cbn [cur midi_data midi_time] in *.
  - subst c. cbn. by rewrite !app_nil_r.
  - cbn [fold_left flat_map]. rewrite IH by (by rewrite load_message_chunks).
    rewrite load_message_chunks, encode_event_chunks. cbn [cur midi_data midi_time fst snd].
    by rewrite <- !app_assoc.
Qed.

Lemma load_messages_concat (tpb : Z) (midi : list Message) :
  load_messages tpb midi =
    {| cur := zeros5;
       midi_data := flat_map (fun x => fst (encode_event tpb x)) midi;
       midi_time :=
         flat_map (fun x => replicate (length (chunks3 (msg_bytes x))) (time_product tpb x))
                  midi |}.
Proof. unfold load_messages. by rewrite load_fold_concat. Qed.

(** The times of a file after the final [astype(np.float32)]. *)
Lemma astype_times (tpb : Z) (midi : list Message) :
  map astype_float32
      (flat_map (fun x => replicate (length (chunks3 (msg_bytes x))) (time_product tpb x)) midi)
  = flat_map (fun x => snd (encode_event tpb x)) midi.
Proof.
  induction midi as [|x midi IH]; [reflexivity |].
  cbn [flat_map]. rewrite map_app, IH. f_equal.
  rewrite encode_event_chunks. cbn [snd]. unfold stored_time.
  generalize (length (chunks3 (msg_bytes x))) as n.
  induction n as [|n IHn]; [reflexivity |]. cbn [replicate map]. by rewrite IHn.
Qed.

Lemma encode_event_no_bytes (tpb : Z) (x : Message) :
  msg_bytes x = [] -> encode_event tpb x = ([], []).
Proof. intros H. rewrite encode_event_chunks, H. reflexivity. Qed.

(** C4, as the code has it.  A message without bytes contributes no record
    and no time, and no exception is raised for it: a file that holds
    other messages loads exactly as it does without that message. *)
Theorem zero_byte_event_skipped (f : MidiFile) (pre post : list Message) (x : Message) :
  msg_bytes x = [] ->
  mf_messages f = pre ++ x :: post ->
  pre ++ post <> [] ->
  encode_event (mf_ticks_per_beat f) x = ([], []) /\
  load_midi_data f =
    load_midi_data {| mf_type := mf_type f;
                      mf_ticks_per_beat := mf_ticks_per_beat f;
                      mf_messages := pre ++ post |}.
Proof.
  intros Hx Hf Hne. split; [by apply encode_event_no_bytes |].
  unfold load_midi_data. cbn [mf_messages mf_ticks_per_beat]. rewrite Hf.
  rewrite !load_messages_concat. cbn [midi_data midi_time].
  rewrite !flat_map_app. cbn [flat_map].
  rewrite (encode_event_no_bytes _ x Hx), Hx. cbn [chunks3 length replicate fst snd app].
  destruct pre; [destruct post; [done | reflexivity] | reflexivity].
Qed.

(** The skip, on a file of a message without bytes and a note-on. *)
Lemma zero_byte_event_skipped_witness :
  encode_event 480 {| msg_bytes := []; msg_time := float64_of_int 1 |} = ([], []) /\
  load_midi_data silent_file =
    load_midi_data {| mf_type := 0; mf_ticks_per_beat := 480;
                      mf_messages := [ {| msg_bytes := [144; 64; 100];
                                          msg_time := float64_of_int 0 |} ] |}.
Proof.
  apply (zero_byte_event_skipped silent_file [] _
           {| msg_bytes := []; msg_time := float64_of_int 1 |});
    [reflexivity | reflexivity | discriminate].
Defined.

(** C4, as the specification states it, fails: a file whose first message has no
    bytes loads without any exception, with the record of the second
    message only. *)
Lemma zero_byte_event_not_reported :
  load_midi_data silent_file
  = Ret ([np_unpackbits [0; 144; 64; 100; 3]], [S754_zero false]) /\
  ~ (exists e : exn, load_midi_data silent_file = Raise e).
Proof.
  assert (H : load_midi_data silent_file
              = Ret ([np_unpackbits [0; 144; 64; 100; 3]], [S754_zero false]))
    by (vm_compute; reflexivity).
  split; [exact H |]. intros [e He]. rewrite H in He. discriminate.
Qed.

(** ** Bit packing *)

Lemma pack8_byte_bits_small (n : Z) : 0 <= n < 256 -> pack8 (byte_bits n) = n.
Proof.
  intros Hn.
  assert (Hall : forallb (fun k => pack8 (byte_bits (Z.of_nat k)) =? Z.of_nat k) (seq 0 256) = true)
    by (vm_compute; reflexivity).
  rewrite forallb_forall in Hall.
  specialize (Hall (Z.to_nat n)). rewrite Z2Nat.id in Hall by lia.
  apply Z.eqb_eq, Hall, in_seq. lia.
Qed.

Lemma byte_bits_as_uint8 (v : Z) : byte_bits (as_uint8 v) = byte_bits v.
Proof. unfold byte_bits, as_uint8. by rewrite Z.mod_mod. Qed.

Lemma pack8_byte_bits (v : Z) : pack8 (byte_bits v) = as_uint8 v.
Proof.
  rewrite <- byte_bits_as_uint8. apply pack8_byte_bits_small.
  unfold as_uint8. apply Z.mod_pos_bound. lia.
Qed.

Lemma packbits_groups_unpack (row : list Z) :
  forall n : nat, (length row <= n)%nat ->
    packbits_groups n (np_unpackbits row) = map as_uint8 row.
Proof.
  induction row as [|v row IH]; intros n Hn.
  - destruct n; reflexivity.
  - destruct n as [|n]; [cbn in Hn; lia |].
    change (np_unpackbits (v :: row)) with (byte_bits v ++ np_unpackbits row).
    change (byte_bits v) with
      (let b := fun i => Z.b2z (Z.testbit (as_uint8 v) i) in
       [b 7; b 6; b 5; b 4; b 3; b 2; b 1; b 0]).
    cbn [packbits_groups app take drop map].
    f_equal; [apply (pack8_byte_bits v) | apply IH; cbn in Hn; lia].
Qed.

(** Packing the bits of a row of bytes gives the bytes back. *)
Lemma np_packbits_unpackbits (row : list Z) :
  all_bytes row -> np_packbits (np_unpackbits row) = row.
Proof.
  intros Hb. unfold np_packbits. rewrite packbits_groups_unpack.
  - induction Hb as [|v row Hv _ IH]; [reflexivity |].
    cbn [map]. rewrite IH. unfold as_uint8. by rewrite Z.mod_small.
  - unfold np_unpackbits. clear Hb. induction row as [|v row IH]; [cbn; lia |].
    cbn [flat_map]. rewrite length_app. unfold byte_bits at 1. cbn [map length] in *. lia.
Qed.

(** ** The decoder *)

Section DecoderFacts.

Variable from_bytes : list Z -> exn + list Z.
Variable np_mean : list scalar -> spec_float.

(** What a [try] block of the loop leaves on the track. *)
Lemma append_or_print_appended (d : decoder) (bs : list Z) (time : outcome Z) :
  let d' := append_or_print d (msg ← Message_from_bytes from_bytes bs;
                               t ← time; Ret (set_time msg t)) in
  aggregator d' = aggregator d /\
  aggregator_times d' = aggregator_times d /\
  track d' = track d ++ appended from_bytes bs time.
Proof.
  unfold appended, Message_from_bytes.
  destruct (from_bytes bs) as [e | built]; cbn; rewrite ?app_nil_r; [done |].
  destruct time as [t | e |]; cbn; rewrite ?app_nil_r; done.
Qed.


Lemma flush_spec (d : decoder) :
  aggregator (flush from_bytes np_mean d)
    = (if (0 <? length (aggregator d))%nat then [] else aggregator d) /\
  aggregator_times (flush from_bytes np_mean d)
    = (if (0 <? length (aggregator d))%nat then [] else aggregator_times d) /\
  track (flush from_bytes np_mean d) = track d ++ flushed from_bytes np_mean d.
Proof.
  unfold flush, flushed.
  destruct (0 <? length (aggregator d))%nat; [| by rewrite app_nil_r].
  destruct (append_or_print_appended d (aggregator d)
              (mean_time np_mean (aggregator_times d))) as (_ & _ & H).
  cbn [aggregator aggregator_times track]. done.
Qed.

Lemma emit_own_spec (b1 b2 b3 m4 m0 : Z) (rest : list Z) (timing : list scalar)
    (index : nat) (t : scalar) (d : decoder) :
  timing !! index = Some t ->
  let d' := emit_own from_bytes (m0 :: b1 :: b2 :: b3 :: m4 :: rest) timing index d in
  aggregator d' = aggregator d /\
  aggregator_times d' = aggregator_times d /\
  track d' = track d ++ own_message from_bytes (valid_bytes b1 b2 b3 m4) t.
Proof.
  intros Ht. unfold emit_own, own_message, valid_bytes.
  rewrite (getitem_Some _ _ _ Ht). unfold getitem.
  cbn [lookup list_lookup drop mbind outcome_bind].
  assert (E : take (Z.to_nat (Z.min 3 m4)) (b1 :: b2 :: b3 :: m4 :: rest)
              = take (Z.to_nat (Z.min 3 m4)) [b1; b2; b3]).
  { assert (Hn : (Z.to_nat (Z.min 3 m4) <= 3)%nat) by lia.
    destruct (Z.to_nat (Z.min 3 m4)) as [|[|[|[|n]]]]; try reflexivity. lia. }
  rewrite E.
  apply (append_or_print_appended d (take (Z.to_nat (Z.min 3 m4)) [b1; b2; b3]) (own_time t)).
Qed.

(** A record with the flag clear: flush, then the record's own message. *)
Lemma decode_record_clear (row : list Z) (m0 b1 b2 b3 m4 : Z) (rest : list Z)
    (timing : list scalar) (index : nat) (t : scalar) (d : decoder) :
  np_packbits row = m0 :: b1 :: b2 :: b3 :: m4 :: rest ->
  m0 <= 0 ->
  timing !! index = Some t ->
  exists d' : decoder,
    decode_record from_bytes np_mean timing index row d = Ret d' /\
    track d' = track d ++ flushed from_bytes np_mean d
               ++ own_message from_bytes (valid_bytes b1 b2 b3 m4) t /\
    aggregator d' = (if (0 <? length (aggregator d))%nat then [] else aggregator d) /\
    aggregator_times d'
      = (if (0 <? length (aggregator d))%nat then [] else aggregator_times d).
Proof.
  intros Hp Hm Ht. unfold decode_record. rewrite Hp.
  cbn [getitem lookup list_lookup mbind outcome_bind].
  replace (0 <? m0) with false by (symmetry; apply Z.ltb_ge; lia).
  eexists. split; [reflexivity |].
  destruct (emit_own_spec b1 b2 b3 m4 m0 rest timing index t (flush from_bytes np_mean d) Ht)
    as (Ha & Hat & Htr).
  destruct (flush_spec d) as (Fa & Fat & Ftr).
  rewrite Htr, Ha, Hat, Ftr, Fa, Fat, <- app_assoc. done.
Qed.

(** A record with the flag set: its valid bytes are buffered, each with a
    copy of the record's time; nothing is appended to the track. *)
Lemma decode_record_set (row : list Z) (m0 b1 b2 b3 m4 : Z) (rest : list Z)
    (timing : list scalar) (index : nat) (t : scalar) (d : decoder) :
  np_packbits row = m0 :: b1 :: b2 :: b3 :: m4 :: rest ->
  0 < m0 ->
  timing !! index = Some t ->
  decode_record from_bytes np_mean timing index row d =
    Ret {| aggregator := aggregator d ++ valid_bytes b1 b2 b3 m4;
           aggregator_times := aggregator_times d
                               ++ replicate (length (valid_bytes b1 b2 b3 m4)) t;
           track := track d; printed := printed d |}.
Proof.
  intros Hp Hm Ht. unfold decode_record. rewrite Hp.
  cbn [getitem lookup list_lookup mbind outcome_bind].
  replace (0 <? m0) with true by (symmetry; apply Z.ltb_lt; lia).
  unfold valid_bytes.
  assert (Hn : (Z.to_nat (Z.min 3 m4) <= 3)%nat) by lia.
  destruct d as [ag agt tr pr].
  destruct (Z.to_nat (Z.min 3 m4)) as [|[|[|[|n]]]]; [| | | | lia];
    cbn [seq aggregate getitem lookup list_lookup mbind outcome_bind take length replicate
         aggregator aggregator_times track printed];
    rewrite ?(getitem_Some _ _ _ Ht);
    cbn [mbind outcome_bind aggregator aggregator_times track printed aggregate];
    rewrite ?(getitem_Some _ _ _ Ht);
    cbn [mbind outcome_bind aggregator aggregator_times track printed aggregate];
    rewrite ?(getitem_Some _ _ _ Ht);
    cbn [mbind outcome_bind aggregator aggregator_times track printed aggregate];
    rewrite <- ?app_assoc, ?app_nil_r; reflexivity.
Qed.

End DecoderFacts.

Section RoundTrip.

Variable from_bytes : list Z -> exn + list Z.
Variable np_mean : list scalar -> spec_float.





End RoundTrip.



(** An end-of-track meta message, the three bytes that close every track:
    the library takes 255 for the status of a one-byte message and rejects
    the three, so the record decodes to no message at all. *)
Lemma end_of_track_not_decoded :
  create_midi_track mido_from_bytes numpy_mean
    (map np_unpackbits
         (fst (encode_event 480 {| msg_bytes := [255; 47; 0]; msg_time := float64_of_int 0 |})))
    (map float32
         (snd (encode_event 480 {| msg_bytes := [255; 47; 0]; msg_time := float64_of_int 0 |})))
  = Ret [].
Proof. vm_compute. reflexivity. Qed.



(** ** The format filter *)

(** C9.  [is_midi_0] returns a boolean for every file name, whatever the
    parser does; the boolean is [true] exactly when the file parses and its
    type is 0.  An exception of the parser gives [false]. *)
Theorem is_midi_0_total (MidiFile_open : string -> exn + MidiFile) (filename : string) :
  exists b : bool,
    is_midi_0 MidiFile_open filename = Ret b /\
    (b = true <-> exists f : MidiFile, MidiFile_open filename = inr f /\ mf_type f = 0) /\
    ((exists e : exn, MidiFile_open filename = inl e) -> b = false).
Proof.
  unfold is_midi_0, MidiFile_, try_except.
  destruct (MidiFile_open filename) as [e | f] eqn:E; cbn [mbind outcome_bind].
  - exists false. split; [reflexivity |]. split; [| reflexivity].
    split; [discriminate | intros (f & Hf & _); discriminate].
  - exists (mf_type f =? 0). split; [reflexivity |]. split.
    + rewrite Z.eqb_eq. split; [intros H; exists f; done | intros (f' & [= <-] & H); done].
    + intros [e He]. discriminate.
Qed.

(** ** The training loop: cursor and exhaustion *)

Lemma py_pos_nat {A} (l : list A) (i : nat) :
  (i < length l)%nat -> py_pos l (Z.of_nat i) = Ret i.
Proof.
  intros H. unfold py_pos.
  replace (0 <=? Z.of_nat i) with true by (symmetry; apply Z.leb_le; lia).
  replace (Z.of_nat i <? Z.of_nat (length l)) with true by (symmetry; apply Z.ltb_lt; lia).
  cbn [andb]. by rewrite Nat2Z.id.
Qed.

Lemma py_getitem_nat {A} (l : list A) (i : nat) (a : A) :
  l !! i = Some a -> py_getitem l (Z.of_nat i) = Ret a.
Proof.
  intros H. unfold py_getitem. rewrite py_pos_nat by (by eapply lookup_lt_Some).
  cbn [mbind outcome_bind]. by apply getitem_Some.
Qed.

Lemma py_setitem_nat {A} (l : list A) (i : nat) (v : A) :
  (i < length l)%nat -> py_setitem l (Z.of_nat i) v = Ret (<[i := v]> l).
Proof. intros H. unfold py_setitem. by rewrite py_pos_nat. Qed.

Lemma randint_pos (r n : nat) : (n <> 0)%nat -> randint r n = Ret (r mod n)%nat.
Proof. intros H. unfold randint. by destruct (Nat.eqb_spec n 0). Qed.

Section Cursor.

Context {State : Type}.
Variable zero_state1 zero_state2 : State.
Variable MidiFile_open : string -> exn + MidiFile.
Variable file_list : list string.
Variable seq_length : nat.
Variable max_midi_files_in_memory : nat.
Variable loading_rate : Q.

Local Abbreviation iteration :=
  (train_iteration zero_state1 zero_state2 MidiFile_open file_list seq_length
                   max_midi_files_in_memory loading_rate).
Local Abbreviation training :=
  (train zero_state1 zero_state2 MidiFile_open file_list seq_length
         max_midi_files_in_memory loading_rate).

(** An iteration that draws stream [i], with room for a window at its
    cursor [p]: the loop is not entered, the states are replaced by what
    the network returns, the cursor becomes [p + seq_length]. *)
Lemma iteration_served (d : draws) (s : @pool State) (n i : nat) (a : ndarray) (p : Z) :
  aligned s n ->
  (first_file d mod n = i)%nat ->
  midis_array s !! i = Some a ->
  p_list s !! i = Some p ->
  p + Z.of_nat seq_length + 1 <= Z.of_nat (rows a) ->
  iteration d s =
    Ret {| midis_array := midis_array s;
           midi_times_array := midi_times_array s;
           p_list := <[i := p + Z.of_nat seq_length]> (p_list s);
           rnn_state1_list := <[i := states1f_val d]> (rnn_state1_list s);
           rnn_state2_list := <[i := states2f_val d]> (rnn_state2_list s);
           loaded_files := loaded_files s;
           file_choice := file_choice s;
           current_file := Z.of_nat i |}.
Proof.
  intros (Hm & Hp & H1 & H2) Hd Ha Hpi Hroom.
  pose proof (lookup_lt_Some _ _ _ Ha) as Hi.
  assert (Hn : n <> 0%nat) by lia.
  unfold train_iteration. rewrite Hm, (randint_pos _ n Hn), Hd.
  cbn [mbind outcome_bind].
  assert (He : forall rs cs,
             select_stream zero_state1 zero_state2 MidiFile_open file_list seq_length
               max_midi_files_in_memory loading_rate rs cs
               {| midis_array := midis_array s; midi_times_array := midi_times_array s;
                  p_list := p_list s; rnn_state1_list := rnn_state1_list s;
                  rnn_state2_list := rnn_state2_list s; loaded_files := loaded_files s;
                  file_choice := file_choice s; current_file := Z.of_nat i |}
             = Ret ({| midis_array := midis_array s; midi_times_array := midi_times_array s;
                  p_list := p_list s; rnn_state1_list := rnn_state1_list s;
                  rnn_state2_list := rnn_state2_list s; loaded_files := loaded_files s;
                  file_choice := file_choice s; current_file := Z.of_nat i |}, cs)).
  { intros rs cs. destruct rs as [|[r u] rs]; cbn [select_stream]; unfold exhausted;
      cbn [p_list midis_array current_file];
      rewrite (py_getitem_nat _ _ _ Hpi), (py_getitem_nat _ _ _ Ha);
      cbn [mbind outcome_bind];
      replace (Z.of_nat (rows a) <? p + Z.of_nat seq_length + 1) with false
        by (symmetry; apply Z.ltb_ge; lia); reflexivity. }
  rewrite He. cbn [mbind outcome_bind p_list rnn_state1_list rnn_state2_list current_file
                   midis_array midi_times_array loaded_files file_choice].
  rewrite (py_getitem_nat _ _ _ Hpi).
  destruct (lookup_lt_is_Some_2 (rnn_state1_list s) i ltac:(lia)) as [x1 Hx1].
  destruct (lookup_lt_is_Some_2 (rnn_state2_list s) i ltac:(lia)) as [x2 Hx2].
  cbn [mbind outcome_bind].
  rewrite (py_getitem_nat _ _ _ Hx1), (py_getitem_nat _ _ _ Hx2).
  cbn [mbind outcome_bind].
  rewrite !py_setitem_nat by lia. reflexivity.
Qed.

(** An iteration that draws the exhausted stream [i], then draws it again
    in the loop with a uniform sample that does not trigger the rotation:
    the cursor is reset to 0 and the window at 0 is served. *)
Lemma iteration_reset (d : draws) (s : @pool State) (n i r : nat) (u : Q)
    (a : ndarray) (p : Z) :
  aligned s n ->
  (first_file d mod n = i)%nat ->
  resets d = [(r, u)] ->
  (r mod n = i)%nat ->
  Qle_bool u loading_rate = true ->
  midis_array s !! i = Some a ->
  p_list s !! i = Some p ->
  Z.of_nat (rows a) < p + Z.of_nat seq_length + 1 ->
  Z.of_nat seq_length + 1 <= Z.of_nat (rows a) ->
  exists s' : @pool State,
    iteration d s = Ret s' /\
    midis_array s' = midis_array s /\
    p_list s' = <[i := Z.of_nat seq_length]> (p_list s) /\
    rnn_state1_list s' = <[i := states1f_val d]> (rnn_state1_list s) /\
    rnn_state2_list s' = <[i := states2f_val d]> (rnn_state2_list s).
Proof.
  intros (Hm & Hp & H1 & H2) Hd Hr Hri Hu Ha Hpi Hex Hroom.
  pose proof (lookup_lt_Some _ _ _ Ha) as Hi.
  assert (Hn : n <> 0%nat) by lia.
  unfold train_iteration. rewrite Hm, (randint_pos _ n Hn), Hd, Hr.
  cbn [mbind outcome_bind select_stream]. unfold exhausted.
  cbn [p_list midis_array current_file rnn_state1_list rnn_state2_list].
  rewrite (py_getitem_nat _ _ _ Hpi), (py_getitem_nat _ _ _ Ha).
  cbn [mbind outcome_bind].
  replace (Z.of_nat (rows a) <? p + Z.of_nat seq_length + 1) with true
    by (symmetry; apply Z.ltb_lt; lia).
  rewrite !py_setitem_nat by lia. cbn [mbind outcome_bind].
  rewrite Hm, (randint_pos _ n Hn), Hri, Hu.
  cbn [mbind outcome_bind negb].
  cbn [p_list midis_array current_file rnn_state1_list rnn_state2_list loaded_files
       file_choice midi_times_array].
  rewrite (py_getitem_nat (<[i:=0]> (p_list s)) i 0)
    by (apply list_lookup_insert_eq; lia).
  rewrite (py_getitem_nat _ _ _ Ha). cbn [mbind outcome_bind].
  replace (Z.of_nat (rows a) <? 0 + Z.of_nat seq_length + 1) with false
    by (symmetry; apply Z.ltb_ge; lia).
  cbn [mbind outcome_bind p_list midis_array current_file rnn_state1_list rnn_state2_list
       loaded_files file_choice midi_times_array].
  rewrite (py_getitem_nat (<[i:=0]> (p_list s)) i 0)
    by (apply list_lookup_insert_eq; lia).
  rewrite (py_getitem_nat (<[i:=zero_state2]> (rnn_state2_list s)) i zero_state2)
    by (apply list_lookup_insert_eq; lia).
  rewrite (py_getitem_nat (<[i:=zero_state1]> (rnn_state1_list s)) i zero_state1)
    by (apply list_lookup_insert_eq; lia).
  cbn [mbind outcome_bind].
  rewrite !py_setitem_nat by (rewrite length_insert; lia).
  eexists. split; [reflexivity |].
  cbn [p_list midis_array rnn_state1_list rnn_state2_list].
  rewrite !list_insert_insert_eq. done.
Qed.

Lemma train_app (ds1 ds2 : list draws) (s : @pool State) :
  training (ds1 ++ ds2) s = s' ← training ds1 s; training ds2 s'.
Proof.
  revert s. induction ds1 as [|d ds1 IH]; intros s; cbn [app train].
  - reflexivity.
  - destruct (iteration d s) as [s1 | e |]; cbn [mbind outcome_bind]; [apply IH | done | done].
Qed.

(** Iterations that all draw stream [i], as long as windows fit: the
    cursor advances by [seq_length] per iteration. *)
Lemma train_served (n i : nat) (a : ndarray) (ds : list draws) :
  forall (s : @pool State) (p : Z),
    aligned s n ->
    midis_array s !! i = Some a ->
    p_list s !! i = Some p ->
    Forall (fun d => (first_file d mod n = i)%nat) ds ->
    p + Z.of_nat (length ds) * Z.of_nat seq_length + 1 <= Z.of_nat (rows a) ->
    exists s' : @pool State,
      training ds s = Ret s' /\
      aligned s' n /\
      midis_array s' = midis_array s /\
      p_list s' !! i = Some (p + Z.of_nat (length ds) * Z.of_nat seq_length).
Proof.
  induction ds as [|d ds IH]; intros s p Hal Ha Hp Hds Hroom.
  - exists s. cbn [train length]. repeat split; try apply Hal.
    rewrite Hp. f_equal. lia.
  - inversion_clear Hds as [|? ? Hd Hds'].
    cbn [length] in Hroom. cbn [train].
    rewrite (iteration_served d s n i a p Hal Hd Ha Hp) by nia.
    cbn [mbind outcome_bind].
    pose proof (lookup_lt_Some _ _ _ Hp) as Hi.
    destruct Hal as (Hm & Hpl & H1 & H2).
    match goal with
    | |- context [train _ _ _ _ _ _ _ ds ?s1] =>
        pose proof (IH s1 (p + Z.of_nat seq_length)) as IH'
    end.
    destruct IH' as (s' & Hs' & Hal' & Hm' & Hp'); [ | | | exact Hds' | | ].
    + repeat split; cbn [midis_array p_list rnn_state1_list rnn_state2_list];
        rewrite ?length_insert; assumption.
    + exact Ha.
    + cbn [p_list]. by apply list_lookup_insert_eq.
    + nia.
    + exists s'. split; [exact Hs' |]. split; [exact Hal' |]. split; [exact Hm' |].
      rewrite Hp'. f_equal. cbn [length]. lia.
Qed.

(** C7.  A stream of [N] records whose cursor is 0, in iterations that all
    draw it and with windows of [S >= 1] records, [S + 1 <= N]: exactly
    [floor((N-1)/S)] iterations are served before the stream is exhausted,
    each moving the cursor on by exactly [S]; the iteration after them
    finds the stream exhausted, resets its cursor to 0 (here it draws the
    stream again, with a uniform sample that does not start a rotation)
    and serves the window at 0, which leaves the cursor at [S]. *)
Theorem cursor_exhaustion (s : @pool State) (n i r : nat) (u : Q) (a : ndarray)
    (ds : list draws) (d : draws) :
  let N := Z.of_nat (rows a) in
  let S := Z.of_nat seq_length in
  1 <= S ->
  S + 1 <= N ->
  aligned s n ->
  midis_array s !! i = Some a ->
  p_list s !! i = Some 0 ->
  Forall (fun d => (first_file d mod n = i)%nat) ds ->
  Z.of_nat (length ds) = (N - 1) / S ->
  (first_file d mod n = i)%nat ->
  resets d = [(r, u)] ->
  (r mod n = i)%nat ->
  Qle_bool u loading_rate = true ->
  (forall k : nat,
      (k <= length ds)%nat ->
      exists s_k : @pool State,
        training (take k ds) s = Ret s_k /\ p_list s_k !! i = Some (Z.of_nat k * S)) /\
  (exists s_K : @pool State,
      training ds s = Ret s_K /\
      p_list s_K !! i = Some ((N - 1) / S * S) /\
      N < (N - 1) / S * S + S + 1) /\
  (exists s' : @pool State,
      training (ds ++ [d]) s = Ret s' /\
      p_list s' !! i = Some S /\
      rnn_state1_list s' !! i = Some (states1f_val d) /\
      rnn_state2_list s' !! i = Some (states2f_val d)).
Proof.
  intros N S HS HN Hal Ha Hp Hds Hlen Hd Hr Hri Hu.
  assert (Hdiv : ((N - 1) / S) * S <= N - 1 < ((N - 1) / S + 1) * S).
  { pose proof (Z.div_mod (N - 1) S ltac:(lia)).
    pose proof (Z.mod_pos_bound (N - 1) S ltac:(lia)). nia. }
  destruct (train_served n i a ds s 0 Hal Ha Hp Hds) as (s_K & Hs_K & Hal_K & Hm_K & Hp_K);
    [fold N S; nia |].
  replace (0 + Z.of_nat (length ds) * Z.of_nat seq_length) with ((N - 1) / S * S) in Hp_K
    by (fold S; lia).
  split; [| split].
  - intros k Hk.
    destruct (train_served n i a (take k ds) s 0 Hal Ha Hp) as (s_k & Hs_k & _ & _ & Hp_k).
    + by apply Forall_take.
    + rewrite length_take. fold N S. nia.
    + exists s_k. split; [exact Hs_k |]. rewrite Hp_k. f_equal.
      rewrite length_take. replace (Nat.min k (length ds)) with k by lia. fold S. lia.
  - exists s_K. split; [exact Hs_K |]. split; [exact Hp_K |]. lia.
  - rewrite train_app, Hs_K. cbn [mbind outcome_bind train].
    destruct (iteration_reset d s_K n i r u a ((N - 1) / S * S) Hal_K Hd Hr Hri Hu)
      as (s' & Hs' & _ & Hp' & H1' & H2');
      [by rewrite Hm_K | exact Hp_K | fold N S; lia | fold N S; lia |].
    exists s'. rewrite Hs'. cbn [mbind outcome_bind]. split; [reflexivity |].
    destruct Hal_K as (HmK & HpK & H1K & H2K).
    pose proof (lookup_lt_Some _ _ _ Ha) as Hi. rewrite <- Hm_K, HmK in Hi.
    rewrite Hp', H1', H2'.
    split; [apply list_lookup_insert_eq; lia |].
    split; apply list_lookup_insert_eq; lia.
Qed.

End Cursor.

(** A stream of 5 records and windows of 2: two iterations are served and
    leave the cursor at 4; the third finds the stream exhausted, resets it
    and serves the window at 0. *)
Lemma cursor_exhaustion_witness :
  (forall k : nat,
      (k <= 2)%nat ->
      exists s_k : @pool unit,
        train tt tt every_file_ok four_files 2 500 (99 # 100) (take k [draw_0; draw_0])
              notebook_pool = Ret s_k /\
        p_list s_k !! 0%nat = Some (Z.of_nat k * 2)) /\
  (exists s_K : @pool unit,
      train tt tt every_file_ok four_files 2 500 (99 # 100) [draw_0; draw_0] notebook_pool
      = Ret s_K /\
      p_list s_K !! 0%nat = Some 4 /\ 5 < 4 + 2 + 1) /\
  (exists s' : @pool unit,
      train tt tt every_file_ok four_files 2 500 (99 # 100) [draw_0; draw_0; draw_reset]
            notebook_pool = Ret s' /\
      p_list s' !! 0%nat = Some 2 /\
      rnn_state1_list s' !! 0%nat = Some tt /\
      rnn_state2_list s' !! 0%nat = Some tt).
Proof.
  apply (cursor_exhaustion tt tt every_file_ok four_files 2 500 (99 # 100)
           notebook_pool 1 0 0 0%Q (records 0 5) [draw_0; draw_0] draw_reset);
    try reflexivity; try (cbn; lia); try (repeat split; fail).
  repeat constructor.
Defined.

(** ** The training loop: rotation *)

Lemma slice_1_length {A} (hi : nat) (l : list A) :
  length (slice_1 hi l) = Nat.min (hi - 1) (length l - 1).
Proof. unfold slice_1. rewrite length_take, length_drop. lia. Qed.

Section Rotation.

Context {State : Type}.
Variable zero_state1 zero_state2 : State.
Variable MidiFile_open : string -> exn + MidiFile.
Variable file_list : list string.
Variable max_midi_files_in_memory : nat.

Local Abbreviation rotate :=
  (rotation zero_state1 zero_state2 MidiFile_open file_list max_midi_files_in_memory).

(** While [loaded_files] is not bound the inner loop never ends normally:
    it is still drawing, or its condition raises [NameError]. *)
Lemma choose_file_unbound (cs : list nat) :
  forall (file_loaded : bool) (fc : option nat) (r : option nat * list nat),
    choose_file MidiFile_open file_list cs file_loaded fc None <> Ret r.
Proof.
  induction cs as [|c cs IH]; intros fl fc r; cbn [choose_file].
  - destruct fl; cbn [negb mbind outcome_bind]; [| discriminate].
    destruct fc; cbn; discriminate.
  - destruct fl; cbn [negb mbind outcome_bind].
    + destruct fc; cbn; discriminate.
    + destruct (try_candidate MidiFile_open file_list c fc false) as [fc' fl']. apply IH.
Qed.

(** In the notebook as it stands no rotation completes. *)
Lemma rotation_unbound (cs : list nat) (s : @pool State) (r : @pool State * list nat) :
  loaded_files s = None -> rotate cs s <> Ret r.
Proof.
  intros Hl. unfold rotation. rewrite Hl.
  destruct (choose_file MidiFile_open file_list cs false (file_choice s) None) as [x | e |] eqn:E;
    cbn [mbind outcome_bind]; [| discriminate | discriminate].
  by apply choose_file_unbound in E.
Qed.

(** A rotation that completes in a pool within the limit appends a cursor
    and two states, and leaves the record arrays, the time arrays and
    [loaded_files] as they were; [current_file] is the last of the old
    record arrays. *)
Lemma rotation_keeps_records (cs cs' : list nat) (s s' : @pool State) :
  (length (midis_array s) <= max_midi_files_in_memory)%nat ->
  rotate cs s = Ret (s', cs') ->
  midis_array s' = midis_array s /\
  midi_times_array s' = midi_times_array s /\
  loaded_files s' = loaded_files s /\
  p_list s' = p_list s ++ [0] /\
  rnn_state1_list s' = rnn_state1_list s ++ [zero_state1] /\
  rnn_state2_list s' = rnn_state2_list s ++ [zero_state2] /\
  current_file s' = Z.of_nat (length (midis_array s)) - 1.
Proof.
  intros Hlen. unfold rotation.
  destruct (choose_file _ _ _ _ _ _) as [[fc cs1] | e |]; cbn [mbind outcome_bind];
    [| discriminate | discriminate].
  replace (max_midi_files_in_memory <? length (midis_array s))%nat with false
    by (symmetry; apply Nat.ltb_ge; lia).
  cbn [mbind outcome_bind]. intros [= <- <-]. cbn. done.
Qed.

End Rotation.

(** C6, on the code.  From the pool of the notebook a rotation that draws
    a compatible file raises [NameError]: [loaded_files] is bound nowhere.
    With [loaded_files] bound to the empty list, the rotation appends a
    cursor and two states but no record array, does not extend
    [loaded_files], and makes the old stream 0 the current one. *)
Theorem rotation_admits_no_records :
  rotation tt tt every_file_ok four_files 500 [1%nat] notebook_pool = Raise NameError /\
  rotation tt tt every_file_ok four_files 500 [1%nat] bound_pool
  = Ret ({| midis_array := [records 0 5];
            midi_times_array := [times 0 5];
            p_list := [0; 0];
            rnn_state1_list := [tt; tt];
            rnn_state2_list := [tt; tt];
            loaded_files := Some [];
            file_choice := Some 1%nat;
            current_file := 0 |}, []).
Proof. split; vm_compute; reflexivity. Qed.

(** ** The store: what [extract_samples] leaves alone *)

Section Frame.

Variable h0 : gmap nat (list Q).

Lemma preserves_ret {A} (x : A) (post : A -> Prop) :
  post x -> preserves h0 (mret x) post.
Proof. intros Hx h Hh. split; [exact Hh |]. by intros a [= <-]. Qed.

Lemma preserves_bind {A B} (m : NP A) (k : A -> NP B) (P : A -> Prop) (post : B -> Prop) :
  preserves h0 m P ->
  (forall a : A, P a -> preserves h0 (k a) post) ->
  preserves h0 (m ≫= k) post.
Proof.
  intros Hm Hk h Hh. destruct (Hm h Hh) as [H1 H2].
  unfold mbind, NP_bind. destruct (m h) as [[a | e |] h'] eqn:E; cbn [fst snd] in *.
  - exact (Hk a (H2 a eq_refl) h' H1).
  - split; [exact H1 | discriminate].
  - split; [exact H1 | discriminate].
Qed.

Lemma preserves_lift {A} (o : outcome A) :
  preserves h0 (lift o) (fun a => o = Ret a).
Proof. intros h Hh. split; [exact Hh | done]. Qed.

(** A new buffer lies outside every store that the current one extends. *)
Lemma preserves_alloc (r w : nat) (vals : list Q) :
  preserves h0 (alloc r w vals) (fun a => h0 !! base a = None).
Proof.
  intros h Hh. unfold alloc. cbn [fst snd].
  assert (Hf : h0 !! fresh (dom h) = None).
  { eapply lookup_weaken_None; [| exact Hh]. apply not_elem_of_dom, is_fresh. }
  split; [by apply insert_subseteq_r |]. by intros a [= <-].
Qed.

Lemma preserves_astype (a : ndarray) :
  preserves h0 (np_astype a) (fun b => h0 !! base b = None).
Proof. intros h Hh. exact (preserves_alloc _ _ (contents h a) h Hh). Qed.

Lemma preserves_maximum0 (a : ndarray) :
  preserves h0 (np_maximum0 a) (fun b => h0 !! base b = None).
Proof. intros h Hh. exact (preserves_alloc _ _ (map relu (contents h a)) h Hh). Qed.

Lemma write_extends (a : ndarray) (vals : list Q) (h : gmap nat (list Q)) :
  h0 !! base a = None -> h0 ⊆ h -> h0 ⊆ write a vals h.
Proof.
  intros Ha Hh. unfold write. destruct (h !! base a); [by apply insert_subseteq_r | exact Hh].
Qed.

(** Writing through a view of a buffer outside [h0]. *)
Lemma preserves_iadd (a : ndarray) (vals : list Q) :
  h0 !! base a = None -> preserves h0 (np_iadd a vals) (fun _ => True).
Proof. intros Ha h Hh. split; [by apply write_extends | done]. Qed.

Lemma preserves_zero_row (a : ndarray) (r : nat) :
  h0 !! base a = None -> preserves h0 (np_zero_row a r) (fun _ => True).
Proof.
  intros Ha h Hh. unfold np_zero_row. destruct (r <? rows a)%nat; cbn [fst snd].
  - split; [by apply write_extends | done].
  - split; [exact Hh | done].
Qed.

End Frame.

Lemma np_reshape_base (a b : ndarray) (r w : nat) :
  np_reshape a r w = Ret b -> base b = base a.
Proof. unfold np_reshape. destruct (size a =? r * w)%nat; [by intros [= <-] | discriminate]. Qed.

(** The whole function, run from a store that extends [h0]. *)
Lemma extract_samples_preserves (h0 : gmap nat (list Q)) (noise_midi noise_time : nat -> Q)
    (rnd : nat) (midis_array midi_times_array : list ndarray) (p seq_length current_file : nat) :
  preserves h0
    (extract_samples noise_midi noise_time rnd midis_array midi_times_array
                     p seq_length current_file)
    (fun '(input_midi_val, input_time_val, target_midi_val, target_time_val) =>
       h0 !! base input_midi_val = None /\
       h0 !! base input_time_val = None /\
       exists m t : ndarray,
         midis_array !! current_file = Some m /\
         midi_times_array !! current_file = Some t /\
         base target_midi_val = base m /\
         base target_time_val = base t).
Proof.
  unfold extract_samples.
  eapply preserves_bind; [apply preserves_lift | intros m Hm].
  eapply preserves_bind; [apply preserves_lift | intros v1 Hv1].
  eapply preserves_bind; [apply preserves_astype | intros im1 Him1].
  eapply preserves_bind; [apply preserves_lift | intros t Ht].
  eapply preserves_bind; [apply preserves_lift | intros v2 Hv2].
  eapply preserves_bind; [apply preserves_astype | intros it1 Hit1].
  eapply preserves_bind; [apply preserves_lift | intros m' Hm'].
  eapply preserves_bind; [apply preserves_lift | intros tm Htm].
  eapply preserves_bind; [apply preserves_lift | intros t' Ht'].
  eapply preserves_bind; [apply preserves_lift | intros tt Htt].
  eapply preserves_bind; [apply (preserves_iadd _ _ _ Him1) | intros _ _].
  eapply preserves_bind; [apply (preserves_iadd _ _ _ Hit1) | intros _ _].
  eapply preserves_bind; [apply preserves_maximum0 | intros im2 Him2].
  eapply preserves_bind; [apply preserves_maximum0 | intros it2 Hit2].
  eapply preserves_bind; [apply preserves_lift | intros r Hr].
  eapply preserves_bind; [apply (preserves_zero_row _ _ _ Him2) | intros _ _].
  eapply preserves_bind; [apply (preserves_zero_row _ _ _ Hit2) | intros _ _].
  apply preserves_ret. split; [exact Him2 |]. split; [exact Hit2 |].
  exists m', t'. apply getitem_Ret in Hm', Ht'.
  apply np_reshape_base in Htm, Htt. cbn [np_slice base] in Htm, Htt. done.
Qed.

(** C10.  Whatever its arguments and its outcome, a call of
    [extract_samples] leaves every buffer of the store as it was, so every
    array of the pool shows the scalars it showed before.  The two inputs
    it returns lie in new buffers; the two targets are views of the stored
    arrays of the current file. *)
Theorem extract_samples_frame (noise_midi noise_time : nat -> Q) (rnd : nat)
    (midis_array midi_times_array : list ndarray) (p seq_length current_file : nat)
    (h : gmap nat (list Q)) :
  let run := extract_samples noise_midi noise_time rnd midis_array midi_times_array
                             p seq_length current_file h in
  h ⊆ snd run /\
  (forall a : ndarray, is_Some (h !! base a) -> contents (snd run) a = contents h a) /\
  (forall im it tm tt : ndarray,
      fst run = Ret (im, it, tm, tt) ->
      h !! base im = None /\ h !! base it = None /\
      exists m t : ndarray,
        midis_array !! current_file = Some m /\
        midi_times_array !! current_file = Some t /\
        base tm = base m /\ base tt = base t).
Proof.
  intros run.
  destruct (extract_samples_preserves h noise_midi noise_time rnd midis_array
              midi_times_array p seq_length current_file h) as [Hsub Hret]; [done |].
  fold run in Hsub, Hret. split; [exact Hsub |]. split.
  - intros a [buf Hbuf]. unfold contents.
    by rewrite (lookup_weaken _ _ _ _ Hbuf Hsub), Hbuf.
  - intros im it tm tt Hrun. exact (Hret _ Hrun).
Qed.

(** ** The store: what [extract_samples] computes *)

Section Wp.

Context {A B : Type}.

Lemma wp_use (m : NP A) (post : A -> gmap nat (list Q) -> Prop)
    (h h' : gmap nat (list Q)) (a : A) :
  wp m post h -> m h = (Ret a, h') -> post a h'.
Proof. unfold wp. intros H E. by rewrite E in H. Qed.

Lemma wp_bind (m : NP A) (k : A -> NP B) (post : B -> gmap nat (list Q) -> Prop)
    (h : gmap nat (list Q)) :
  wp m (fun a h' => wp (k a) post h') h -> wp (m ≫= k) post h.
Proof.
  unfold wp, mbind, NP_bind. destruct (m h) as [[a | e |] h']; done.
Qed.

Lemma wp_lift (o : outcome A) (post : A -> gmap nat (list Q) -> Prop)
    (h : gmap nat (list Q)) :
  (forall a : A, o = Ret a -> post a h) -> wp (lift o) post h.
Proof. unfold wp, lift. destruct o; auto. Qed.

Lemma wp_ret (x : A) (post : A -> gmap nat (list Q) -> Prop) (h : gmap nat (list Q)) :
  post x h -> wp (mret x) post h.
Proof. done. Qed.

End Wp.

Lemma wp_alloc (r w : nat) (vals : list Q) (post : ndarray -> gmap nat (list Q) -> Prop)
    (h : gmap nat (list Q)) :
  (forall l : nat, h !! l = None ->
     post {| base := l; offset := 0; rows := r; width := w |} (<[l := vals]> h)) ->
  wp (alloc r w vals) post h.
Proof. intros H. unfold wp, alloc. apply H, not_elem_of_dom, is_fresh. Qed.

Lemma wp_iadd (a : ndarray) (vals : list Q) (post : unit -> gmap nat (list Q) -> Prop)
    (h : gmap nat (list Q)) :
  post () (write a (zip_with Qplus (contents h a) vals) h) -> wp (np_iadd a vals) post h.
Proof. done. Qed.

Lemma wp_zero_row (a : ndarray) (r : nat) (post : unit -> gmap nat (list Q) -> Prop)
    (h : gmap nat (list Q)) :
  ((r < rows a)%nat ->
   post () (write {| base := base a; offset := (offset a + r * width a)%nat;
                     rows := 1; width := width a |}
                  (replicate (width a) 0%Q) h)) ->
  wp (np_zero_row a r) post h.
Proof.
  intros H. unfold wp, np_zero_row. destruct (Nat.ltb_spec r (rows a)); [by apply H | done].
Qed.

(** Reading and writing an array that owns a whole buffer. *)
Lemma contents_whole (h : gmap nat (list Q)) (l r w : nat) (vals : list Q) :
  h !! l = Some vals -> (length vals <= r * w)%nat ->
  contents h {| base := l; offset := 0; rows := r; width := w |} = vals.
Proof.
  intros Hl Hlen. unfold contents, size. cbn [base offset rows width]. rewrite Hl.
  by rewrite drop_0, take_ge.
Qed.

Lemma write_whole (h : gmap nat (list Q)) (l r w : nat) (old vals : list Q) :
  h !! l = Some old -> (length old <= r * w)%nat ->
  write {| base := l; offset := 0; rows := r; width := w |} vals h = <[l := vals]> h.
Proof.
  intros Hl Hlen. unfold write, size. cbn [base offset rows width]. rewrite Hl.
  rewrite take_0, drop_ge by lia. by rewrite app_nil_r.
Qed.

Lemma write_row (h : gmap nat (list Q)) (l r w k : nat) (old : list Q) :
  h !! l = Some old ->
  write {| base := l; offset := (0 + k * w)%nat; rows := 1; width := w |}
        (replicate w 0%Q) h
  = <[l := set_row k w old]> h.
Proof.
  intros Hl. unfold write, size, set_row. cbn [base offset rows width]. rewrite Hl.
  by rewrite Nat.add_0_l, Nat.mul_1_l.
Qed.

Lemma contents_length (h : gmap nat (list Q)) (a : ndarray) :
  backed h a -> length (contents h a) = size a.
Proof.
  intros (buf & Hb & Hlen). unfold contents. rewrite Hb, length_take, length_drop. lia.
Qed.

Lemma contents_insert_ne (h : gmap nat (list Q)) (a : ndarray) (l : nat) (vals : list Q) :
  base a <> l -> contents (<[l := vals]> h) a = contents h a.
Proof. intros Hne. unfold contents. by rewrite lookup_insert_ne. Qed.

Lemma set_row_length (r w : nat) (l : list Q) :
  (r * w + w <= length l)%nat -> length (set_row r w l) = length l.
Proof.
  intros H. unfold set_row. rewrite !length_app, length_take, length_replicate, length_drop. lia.
Qed.

Lemma set_row_inside (r w i : nat) (l : list Q) :
  (r * w + w <= length l)%nat -> (r * w <= i < r * w + w)%nat ->
  set_row r w l !! i = Some 0%Q.
Proof.
  intros Hl Hi. unfold set_row.
  rewrite lookup_app_r by (rewrite length_take; lia).
  rewrite length_take, lookup_app_l by (rewrite length_replicate; lia).
  apply lookup_replicate. split; [done | lia].
Qed.

Lemma set_row_outside (r w i : nat) (l : list Q) :
  (r * w + w <= length l)%nat -> ~ (r * w <= i < r * w + w)%nat ->
  set_row r w l !! i = l !! i.
Proof.
  intros Hl Hi. unfold set_row.
  destruct (Nat.lt_ge_cases i (r * w)) as [Hlt | Hge].
  - rewrite lookup_app_l by (rewrite length_take; lia). by rewrite lookup_take_lt.
  - rewrite lookup_app_r by (rewrite length_take; lia).
    rewrite length_take, lookup_app_r by (rewrite length_replicate; lia).
    rewrite length_replicate, lookup_drop. f_equal. lia.
Qed.

Lemma np_reshape_Ret (a b : ndarray) (r w : nat) :
  np_reshape a r w = Ret b ->
  size a = (r * w)%nat /\ b = {| base := base a; offset := offset a; rows := r; width := w |}.
Proof.
  unfold np_reshape. destruct (Nat.eqb_spec (size a) (r * w)); [by intros [= <-] | discriminate].
Qed.

Lemma randint_Ret (r n k : nat) :
  randint r n = Ret k -> (1 <= n)%nat /\ k = (r mod n)%nat /\ (k < n)%nat.
Proof.
  unfold randint. destruct (Nat.eqb_spec n 0); [discriminate |]. intros [= <-].
  split; [lia |]. split; [done |]. apply Nat.mod_upper_bound. lia.
Qed.

Lemma contents_length_le (h : gmap nat (list Q)) (a : ndarray) :
  (length (contents h a) <= size a)%nat.
Proof. unfold contents. destruct (h !! base a); [rewrite length_take; lia | cbn; lia]. Qed.

(** The rules for an array that owns a whole buffer. *)
Lemma wp_iadd_whole (l r w : nat) (old vals : list Q)
    (post : unit -> gmap nat (list Q) -> Prop) (h : gmap nat (list Q)) :
  h !! l = Some old -> (length old <= r * w)%nat ->
  post () (<[l := zip_with Qplus old vals]> h) ->
  wp (np_iadd {| base := l; offset := 0; rows := r; width := w |} vals) post h.
Proof.
  intros Hl Hlen H. apply wp_iadd.
  by rewrite (contents_whole h l r w old Hl Hlen), (write_whole h l r w old _ Hl Hlen).
Qed.

Lemma wp_maximum0_whole (l r w : nat) (old : list Q)
    (post : ndarray -> gmap nat (list Q) -> Prop) (h : gmap nat (list Q)) :
  h !! l = Some old -> (length old <= r * w)%nat ->
  (forall l' : nat, h !! l' = None ->
     post {| base := l'; offset := 0; rows := r; width := w |} (<[l' := map relu old]> h)) ->
  wp (np_maximum0 {| base := l; offset := 0; rows := r; width := w |}) post h.
Proof.
  intros Hl Hlen H. unfold wp, np_maximum0, alloc. cbn [rows width].
  rewrite (contents_whole h l r w old Hl Hlen). apply H, not_elem_of_dom, is_fresh.
Qed.

Lemma wp_zero_row_whole (l r w k : nat) (old : list Q)
    (post : unit -> gmap nat (list Q) -> Prop) (h : gmap nat (list Q)) :
  h !! l = Some old ->
  ((k < r)%nat -> post () (<[l := set_row k w old]> h)) ->
  wp (np_zero_row {| base := l; offset := 0; rows := r; width := w |} k) post h.
Proof.
  intros Hl H. apply wp_zero_row. cbn [base offset rows width]. intros Hk.
  rewrite (write_row h l r w k old Hl). by apply H.
Qed.

Lemma wp_astype (a : ndarray) (post : ndarray -> gmap nat (list Q) -> Prop)
    (h : gmap nat (list Q)) :
  (forall l : nat, h !! l = None ->
     post {| base := l; offset := 0; rows := rows a; width := width a |}
          (<[l := contents h a]> h)) ->
  wp (np_astype a) post h.
Proof. intros H. unfold wp, np_astype, alloc. apply H, not_elem_of_dom, is_fresh. Qed.

Lemma np_slice_window (a : ndarray) (lo n w : nat) :
  width a = w -> (1 <= w)%nat -> (1 <= n)%nat ->
  size (np_slice a lo (lo + n)) = (n * w)%nat ->
  (lo + n <= rows a)%nat /\
  {| base := base (np_slice a lo (lo + n)); offset := offset (np_slice a lo (lo + n));
     rows := n; width := w |} = window a lo n w.
Proof.
  intros Hw H1 Hn. unfold size, np_slice, window. cbn [rows width base offset]. rewrite Hw.
  intros Hs.
  assert (Hr : (Nat.min (lo + n) (rows a) - Nat.min lo (rows a) = n)%nat) by nia.
  split; [lia |]. f_equal. f_equal. f_equal. lia.
Qed.

(** What a call that returns has computed: the two inputs own new
    buffers, which hold the clamped sum of window and noise with the drawn
    row set to zero; the two targets are windows of the stored arrays. *)
Lemma extract_samples_wp (noise_midi noise_time : nat -> Q) (rnd : nat)
    (midis_array midi_times_array : list ndarray) (p S cf : nat)
    (h : gmap nat (list Q)) (m t : ndarray) :
  midis_array !! cf = Some m ->
  midi_times_array !! cf = Some t ->
  width m = 40%nat -> width t = 1%nat ->
  backed h m -> backed h t ->
  wp (extract_samples noise_midi noise_time rnd midis_array midi_times_array p S cf)
     (fun '(xm, xt, ym, yt) h' =>
        ((1 <= S)%nat /\ (p + S + 1 <= rows m)%nat /\ (p + S + 1 <= rows t)%nat) /\
        (exists l : nat,
            xm = {| base := l; offset := 0; rows := S; width := 40 |} /\
            h !! l = None /\
            h' !! l = Some (set_row (rnd mod S) 40
                              (map relu (zip_with Qplus (contents h (window m p S 40))
                                                        (normal noise_midi (S * 5 * 8)))))) /\
        (exists l : nat,
            xt = {| base := l; offset := 0; rows := S; width := 1 |} /\
            h !! l = None /\
            h' !! l = Some (set_row (rnd mod S) 1
                              (map relu (zip_with Qplus (contents h (window t p S 1))
                                                        (normal noise_time S))))) /\
        ym = window m (p + 1) S 40 /\
        yt = window t (p + 1) S 1 /\
        h' !! base m = h !! base m /\
        h' !! base t = h !! base t) h.
Proof.
  intros Hm Ht Wm Wt (bm & Bm & Lm) (bt & Bt & Lt). unfold extract_samples.
  rewrite !(getitem_Some _ _ _ Hm), !(getitem_Some _ _ _ Ht).
  apply wp_bind, wp_lift. intros ? [= <-].
  apply wp_bind, wp_lift. intros v1 Hv1. apply np_reshape_Ret in Hv1 as [Sz1 ->].
  apply wp_bind, wp_astype. intros l1 Hl1. cbn [rows width].
  set (C1 := contents h (Build_ndarray (base (np_slice m p (p + S))) _ _ _)).
  apply wp_bind, wp_lift. intros ? [= <-].
  apply wp_bind, wp_lift. intros v2 Hv2. apply np_reshape_Ret in Hv2 as [Sz2 ->].
  apply wp_bind, wp_astype. intros l2 Hl2. cbn [rows width].
  apply lookup_insert_None in Hl2 as [Hl2 N12].
  rewrite contents_insert_ne by (cbn [base np_slice]; congruence).
  set (C2 := contents h (Build_ndarray (base (np_slice t p (p + S))) _ _ _)).
  apply wp_bind, wp_lift. intros ? [= <-].
  apply wp_bind, wp_lift. intros ym Hym. apply np_reshape_Ret in Hym as [Sz3 ->].
  apply wp_bind, wp_lift. intros ? [= <-].
  apply wp_bind, wp_lift. intros yt Hyt. apply np_reshape_Ret in Hyt as [Sz4 ->].
  assert (LC1 : (length C1 <= S * 40)%nat) by apply contents_length_le.
  assert (LC2 : (length C2 <= S * 1)%nat) by apply contents_length_le.
  apply wp_bind. eapply (wp_iadd_whole l1 S 40 C1); [by simplify_map_eq | exact LC1 |].
  cbv beta.
  apply wp_bind. eapply (wp_iadd_whole l2 S 1 C2); [by simplify_map_eq | exact LC2 |].
  cbv beta.
  set (Z1 := zip_with Qplus C1 _). set (Z2 := zip_with Qplus C2 _).
  assert (LZ1 : (length Z1 <= S * 40)%nat).
  { unfold Z1. rewrite length_zip_with. lia. }
  assert (LZ2 : (length Z2 <= S * 1)%nat).
  { unfold Z2. rewrite length_zip_with. lia. }
  apply wp_bind. eapply (wp_maximum0_whole l1 S 40 Z1); [by simplify_map_eq | exact LZ1 |].
  intros l3 Hl3. cbv beta.
  repeat (apply lookup_insert_None in Hl3 as [Hl3 ?]).
  apply wp_bind. eapply (wp_maximum0_whole l2 S 1 Z2); [by simplify_map_eq | exact LZ2 |].
  intros l4 Hl4. cbv beta.
  repeat (apply lookup_insert_None in Hl4 as [Hl4 ?]).
  apply wp_bind, wp_lift. intros r Hr. apply randint_Ret in Hr as (HS & -> & Hr).
  apply wp_bind. eapply (wp_zero_row_whole l3 S 40 _ (map relu Z1)); [by simplify_map_eq |].
  intros _. cbv beta.
  apply wp_bind. eapply (wp_zero_row_whole l4 S 1 _ (map relu Z2)); [by simplify_map_eq |].
  intros _. cbv beta.
  apply wp_ret.
  replace (p + S + 1)%nat with (p + 1 + S)%nat in Sz3, Sz4 by lia.
  destruct (np_slice_window m p S 40 Wm ltac:(lia) HS Sz1) as [R1 E1].
  destruct (np_slice_window t p S 1 Wt ltac:(lia) HS Sz2) as [R2 E2].
  destruct (np_slice_window m (p + 1) S 40 Wm ltac:(lia) HS Sz3) as [R3 E3].
  destruct (np_slice_window t (p + 1) S 1 Wt ltac:(lia) HS Sz4) as [R4 E4].
  assert (Nm : forall l, h !! l = None -> l <> base m) by (intros l Hl ->; congruence).
  assert (Nt : forall l, h !! l = None -> l <> base t) by (intros l Hl ->; congruence).
  split; [lia |].
  split; [exists l3; split; [reflexivity |]; split; [exact Hl3 |];
          subst Z1 C1; rewrite E1; by simplify_map_eq |].
  split; [exists l4; split; [reflexivity |]; split; [exact Hl4 |];
          subst Z2 C2; rewrite E2; by simplify_map_eq |].
  replace (p + S + 1)%nat with (p + 1 + S)%nat by lia.
  split; [exact E3 |]. split; [exact E4 |].
  pose proof (Nm l1 Hl1). pose proof (Nm l2 Hl2). pose proof (Nm l3 Hl3). pose proof (Nm l4 Hl4).
  pose proof (Nt l1 Hl1). pose proof (Nt l2 Hl2). pose proof (Nt l3 Hl3). pose proof (Nt l4 Hl4).
  split; by simplify_map_eq.
Qed.

Lemma backed_window (h : gmap nat (list Q)) (a : ndarray) (p n w : nat) :
  backed h a -> width a = w -> (p + n <= rows a)%nat -> backed h (window a p n w).
Proof.
  intros (buf & Hb & Hlen) Hw Hp. exists buf. split; [exact Hb |].
  unfold size, window in *. cbn [offset rows width]. rewrite Hw in Hlen. nia.
Qed.

Lemma contents_window_lookup (h : gmap nat (list Q)) (a : ndarray) (p n w i : nat) :
  width a = w -> (p + n <= rows a)%nat -> (i < n * w)%nat ->
  contents h (window a p n w) !! i = contents h a !! (p * w + i)%nat.
Proof.
  intros Hw Hp Hi. unfold contents, window, size. cbn [base offset rows width].
  destruct (h !! base a) as [buf |]; [| done].
  rewrite !lookup_take_lt, !lookup_drop by (rewrite ?Hw; nia). f_equal. lia.
Qed.

Lemma contents_same_buffer (h h' : gmap nat (list Q)) (a : ndarray) :
  h' !! base a = h !! base a -> contents h' a = contents h a.
Proof. intros H. unfold contents. by rewrite H. Qed.

Lemma normal_length (noise : nat -> Q) (n : nat) : length (normal noise n) = n.
Proof. unfold normal. by rewrite length_map, length_seq. Qed.

Lemma normal_lookup (noise : nat -> Q) (n i : nat) :
  (i < n)%nat -> normal noise n !! i = Some (noise i).
Proof.
  intros Hi. unfold normal. change (map noise (seq 0 n)) with (noise <$> seq 0 n).
  by rewrite list_lookup_fmap, lookup_seq_lt.
Qed.

(** One scalar of the clamped sum of a list and the noise. *)
Lemma clamped_sum_lookup (noise : nat -> Q) (stored : list Q) (n i : nat) :
  (i < n)%nat ->
  map relu (zip_with Qplus stored (normal noise n)) !! i
  = (fun x => relu (x + noise i)%Q) <$> stored !! i.
Proof.
  intros Hi.
  change (map relu ?l) with (relu <$> l).
  rewrite list_lookup_fmap, lookup_zip_with, (normal_lookup noise n i Hi).
  by destruct (stored !! i).
Qed.

Lemma clamped_sum_length (noise : nat -> Q) (stored : list Q) (n : nat) :
  length stored = n -> length (map relu (zip_with Qplus stored (normal noise n))) = n.
Proof. intros H. rewrite length_map, length_zip_with, normal_length. lia. Qed.

Lemma set_row_zero_row (r w : nat) (l : list Q) :
  (r * w + w <= length l)%nat ->
  take w (drop (r * w) (set_row r w l)) = replicate w 0%Q.
Proof.
  intros H. unfold set_row.
  rewrite drop_app_length' by (rewrite length_take; lia).
  by rewrite take_app_length' by (by rewrite length_replicate).
Qed.

(** What a window that [extract_samples] returns shows, scalar by scalar. *)
Lemma augmented_window_facts (noise_midi noise_time : nat -> Q) (rnd : nat)
    (midis_array midi_times_array : list ndarray) (p S cf : nat)
    (h h' : gmap nat (list Q)) (m t xm xt ym yt : ndarray) :
  midis_array !! cf = Some m ->
  midi_times_array !! cf = Some t ->
  width m = 40%nat -> width t = 1%nat ->
  backed h m -> backed h t ->
  extract_samples noise_midi noise_time rnd midis_array midi_times_array p S cf h
  = (Ret (xm, xt, ym, yt), h') ->
  let r := (rnd mod S)%nat in
  (r < S)%nat /\
  rows xm = S /\
  (forall j : nat, (j < 40)%nat -> contents h' xm !! (r * 40 + j)%nat = Some 0%Q) /\
  contents h' xt !! r = Some 0%Q /\
  In r (zero_timesteps h' xm xt) /\
  (forall k j : nat, (k < S)%nat -> k <> r -> (j < 40)%nat ->
     contents h' xm !! (k * 40 + j)%nat
     = (fun x => relu (x + noise_midi (k * 40 + j)%nat)%Q)
         <$> contents h m !! ((p + k) * 40 + j)%nat) /\
  (forall k : nat, (k < S)%nat -> k <> r ->
     contents h' xt !! k
     = (fun x => relu (x + noise_time k)%Q) <$> contents h t !! (p + k)%nat) /\
  (forall k j : nat, (k < S)%nat -> (j < 40)%nat ->
     contents h' ym !! (k * 40 + j)%nat = contents h m !! ((p + 1 + k) * 40 + j)%nat) /\
  (forall k : nat, (k < S)%nat ->
     contents h' yt !! k = contents h t !! (p + 1 + k)%nat).
Proof.
  intros Hm Ht Wm Wt Bm Bt Hrun r.
  pose proof (wp_use _ _ _ _ _
                (extract_samples_wp noise_midi noise_time rnd midis_array midi_times_array
                   p S cf h m t Hm Ht Wm Wt Bm Bt) Hrun) as Hpost.
  cbv beta iota in Hpost.
  destruct Hpost as ((HS & Rm & Rt) & (l3 & -> & Hl3 & Hx) & (l4 & -> & Hl4 & Hy)
                     & -> & -> & Fm & Ft).
  fold r in Hx, Hy.
  assert (Hr : (r < S)%nat) by (apply Nat.mod_upper_bound; lia).
  set (X := map relu (zip_with Qplus (contents h (window m p S 40))
                               (normal noise_midi (S * 5 * 8)))) in *.
  set (Y := map relu (zip_with Qplus (contents h (window t p S 1))
                               (normal noise_time S))) in *.
  assert (LX : length X = (S * 5 * 8)%nat).
  { apply clamped_sum_length.
    rewrite contents_length by (apply backed_window; [done | done | lia]).
    unfold size, window. cbn [rows width]. lia. }
  assert (LY : length Y = S).
  { apply clamped_sum_length.
    rewrite contents_length by (apply backed_window; [done | done | lia]).
    unfold size, window. cbn [rows width]. lia. }
  assert (Cx : contents h' {| base := l3; offset := 0; rows := S; width := 40 |}
               = set_row r 40 X).
  { apply contents_whole; [exact Hx |]. rewrite set_row_length; lia. }
  assert (Cy : contents h' {| base := l4; offset := 0; rows := S; width := 1 |}
               = set_row r 1 Y).
  { apply contents_whole; [exact Hy |]. rewrite set_row_length; lia. }
  split; [exact Hr |]. split; [reflexivity |].
  split; [intros j Hj; rewrite Cx; apply set_row_inside; lia |].
  split; [rewrite Cy; apply set_row_inside; lia |].
  split.
  { unfold zero_timesteps. apply filter_In. cbn [rows]. split; [apply in_seq; lia |].
    unfold zero_timestep. rewrite Cx, Cy.
    rewrite (set_row_zero_row r 40 X) by lia.
    replace (drop r (set_row r 1 Y)) with (drop (r * 1) (set_row r 1 Y))
      by (f_equal; lia).
    rewrite (set_row_zero_row r 1 Y) by lia. reflexivity. }
  split.
  { intros k j Hk Hkr Hj. rewrite Cx, set_row_outside by nia.
    unfold X. rewrite clamped_sum_lookup by lia.
    rewrite contents_window_lookup by (try done; lia).
    do 2 f_equal. lia. }
  split.
  { intros k Hk Hkr. rewrite Cy, set_row_outside by nia.
    unfold Y. rewrite clamped_sum_lookup by lia.
    rewrite contents_window_lookup by (try done; lia).
    do 2 f_equal. lia. }
  split.
  { intros k j Hk Hj. rewrite (contents_same_buffer h h') by exact Fm.
    rewrite contents_window_lookup by (try done; lia). f_equal. lia. }
  intros k Hk. rewrite (contents_same_buffer h h') by exact Ft.
  rewrite contents_window_lookup by (try done; lia). f_equal. lia.
Qed.


(** C8, as the code has it.  In a window that [extract_samples] returns,
    the drawn timestep [rnd mod seq_length] shows a record of zeros and a
    time of zero, so at least one timestep does; every other timestep
    shows [max(0, stored + noise)] in every scalar, and is zero only where
    the noise cancels what is stored; the targets show the stored records
    and times one step ahead, untouched. *)
Theorem window_augmentation (noise_midi noise_time : nat -> Q) (rnd : nat)
    (midis_array midi_times_array : list ndarray) (p S cf : nat)
    (h h' : gmap nat (list Q)) (m t xm xt ym yt : ndarray) :
  midis_array !! cf = Some m ->
  midi_times_array !! cf = Some t ->
  width m = 40%nat -> width t = 1%nat ->
  backed h m -> backed h t ->
  extract_samples noise_midi noise_time rnd midis_array midi_times_array p S cf h
  = (Ret (xm, xt, ym, yt), h') ->
  let r := (rnd mod S)%nat in
  (r < S)%nat /\
  rows xm = S /\
  (forall j : nat, (j < 40)%nat -> contents h' xm !! (r * 40 + j)%nat = Some 0%Q) /\
  contents h' xt !! r = Some 0%Q /\
  In r (zero_timesteps h' xm xt) /\
  (forall k j : nat, (k < S)%nat -> k <> r -> (j < 40)%nat ->
     contents h' xm !! (k * 40 + j)%nat
     = (fun x => relu (x + noise_midi (k * 40 + j)%nat)%Q)
         <$> contents h m !! ((p + k) * 40 + j)%nat) /\
  (forall k : nat, (k < S)%nat -> k <> r ->
     contents h' xt !! k
     = (fun x => relu (x + noise_time k)%Q) <$> contents h t !! (p + k)%nat) /\
  (forall k j : nat, (k < S)%nat -> (j < 40)%nat ->
     contents h' ym !! (k * 40 + j)%nat = contents h m !! ((p + 1 + k) * 40 + j)%nat) /\
  (forall k : nat, (k < S)%nat ->
     contents h' yt !! k = contents h t !! (p + 1 + k)%nat).
Proof.
  exact (augmented_window_facts noise_midi noise_time rnd midis_array midi_times_array
           p S cf h h' m t xm xt ym yt).
Qed.

(** A window of two timesteps with noise 1/10 and the draw 3: timestep 1
    shows zeros. *)
Lemma window_augmentation_witness :
  In 1%nat (zero_timesteps (snd (window_run (1 # 10) 3))
              {| base := 4; offset := 0; rows := 2; width := 40 |}
              {| base := 5; offset := 0; rows := 2; width := 1 |}).
Proof.
  assert (B0 : backed window_store (records 0 3)).
  { eexists. split; [reflexivity | vm_compute; lia]. }
  assert (B1 : backed window_store (times 0 3)).
  { eexists. split; [reflexivity | vm_compute; lia]. }
  destruct (window_augmentation (fun _ => 1 # 10) (fun _ => 1 # 10) 3
              [records 0 3] [times 0 3] 0 2 0 window_store (snd (window_run (1 # 10) 3))
              (records 0 3) (times 0 3)
              {| base := 4; offset := 0; rows := 2; width := 40 |}
              {| base := 5; offset := 0; rows := 2; width := 1 |}
              {| base := 0; offset := 40; rows := 2; width := 40 |}
              {| base := 1; offset := 1; rows := 2; width := 1 |}
              eq_refl eq_refl eq_refl eq_refl B0 B1)
    as (_ & _ & _ & _ & H & _); [vm_compute; reflexivity | exact H].
Defined.

(** C8, as the specification states it, fails.  With every noise sample at -1 the
    clamp leaves nothing of the first two records of the stream, whose
    times are zero: the window of two timesteps shows zeros at both, not at
    exactly one. *)
Lemma window_two_zero_timesteps :
  fst (window_run (-1) 0)
  = Ret ({| base := 4; offset := 0; rows := 2; width := 40 |},
         {| base := 5; offset := 0; rows := 2; width := 1 |},
         {| base := 0; offset := 40; rows := 2; width := 40 |},
         {| base := 1; offset := 1; rows := 2; width := 1 |}) /\
  zero_timesteps (snd (window_run (-1) 0))
    {| base := 4; offset := 0; rows := 2; width := 40 |}
    {| base := 5; offset := 0; rows := 2; width := 1 |} = [0; 1]%nat.
Proof. split; vm_compute; reflexivity. Qed.

Lemma filter_seq_single (f : nat -> bool) (n r : nat) :
  (r < n)%nat ->
  (forall k : nat, (k < n)%nat -> f k = true <-> k = r) ->
  List.filter f (seq 0 n) = [r].
Proof.
  intros Hr Hf.
  assert (Hnone : forall a len, (a + len <= n)%nat -> (r < a \/ a + len <= r)%nat ->
                                List.filter f (seq a len) = []).
  { intros a len. revert a. induction len as [|len IH]; intros a Ha Hra; [reflexivity |].
    cbn [seq List.filter].
    destruct (f a) eqn:E; [apply Hf in E; lia |]. apply IH; lia. }
  replace n with (r + (1 + (n - r - 1)))%nat by lia.
  rewrite seq_app, List.filter_app, (Hnone 0%nat r) by lia.
  cbn [seq app List.filter Nat.add].
  replace (f r) with true by (symmetry; apply Hf; [lia | reflexivity]).
  rewrite (Hnone (S r) (n - r - 1)%nat) by lia. reflexivity.
Qed.

(** When at every timestep other than the drawn one some stored scalar of
    the record stays positive under its noise sample, the drawn timestep
    is the only one that shows zeros. *)
Lemma window_single_zero_timestep (noise_midi noise_time : nat -> Q) (rnd : nat)
    (midis_array midi_times_array : list ndarray) (p S cf : nat)
    (h h' : gmap nat (list Q)) (m t xm xt ym yt : ndarray) :
  midis_array !! cf = Some m ->
  midi_times_array !! cf = Some t ->
  width m = 40%nat -> width t = 1%nat ->
  backed h m -> backed h t ->
  extract_samples noise_midi noise_time rnd midis_array midi_times_array p S cf h
  = (Ret (xm, xt, ym, yt), h') ->
  (forall k : nat, (k < S)%nat -> k <> (rnd mod S)%nat ->
     exists (j : nat) (x : Q),
       (j < 40)%nat /\ contents h m !! ((p + k) * 40 + j)%nat = Some x /\
       (0 < x + noise_midi (k * 40 + j)%nat)%Q) ->
  zero_timesteps h' xm xt = [(rnd mod S)%nat].
Proof.
  intros Hm Ht Wm Wt Bm Bt Hrun Hpos.
  destruct (augmented_window_facts noise_midi noise_time rnd midis_array midi_times_array
              p S cf h h' m t xm xt ym yt Hm Ht Wm Wt Bm Bt Hrun)
    as (Hr & Hrows & _ & _ & Hin & Hother & _).
  unfold zero_timesteps in *. rewrite Hrows in *.
  apply filter_seq_single; [exact Hr |].
  intros k Hk. split.
  - intros Hz. destruct (Nat.eq_dec k (rnd mod S)%nat) as [-> | Hne]; [reflexivity | exfalso].
    destruct (Hpos k Hk Hne) as (j & x & Hj & Hx & Hp).
    apply andb_true_iff in Hz as [Hz _]. rewrite forallb_forall in Hz.
    specialize (Hother k j Hk Hne Hj). rewrite Hx in Hother. cbn in Hother.
    assert (Hin' : In (relu (x + noise_midi (k * 40 + j)%nat))
                      (take 40 (drop (k * 40) (contents h' xm)))).
    { apply list_elem_of_In, list_elem_of_lookup. exists j.
      by rewrite lookup_take_lt, lookup_drop by lia. }
    apply Hz in Hin'. unfold relu in Hin'.
    destruct (Qle_bool (x + noise_midi (k * 40 + j)%nat) 0) eqn:E.
    + apply Qle_bool_iff in E. apply Qlt_not_le in Hp. contradiction.
    + apply Qeq_bool_iff in Hin'. rewrite <- Hin' in Hp. by apply Qlt_irrefl in Hp.
  - intros ->. apply filter_In in Hin as [_ Hin]. exact Hin.
Qed.

(* ===================================================================== *)
(** * Part III: further properties of the code                            *)
(* ===================================================================== *)

(** ** The loader: shape, order and failure *)


Lemma chunks3_sizes (bs : list Z) :
  Forall (fun c => (1 <= length c <= 3)%nat) (chunks3 bs).
Proof.
  induction bs as [|a|a b|a b c l IH] using list_ind3; cbn [chunks3];
    repeat constructor; cbn; try lia. exact IH.
Qed.

Lemma np_unpackbits_length (row : list Z) :
  length (np_unpackbits row) = (8 * length row)%nat.
Proof.
  unfold np_unpackbits. induction row as [|v row IH]; [reflexivity |].
  cbn [flat_map]. rewrite length_app, IH. unfold byte_bits. cbn [map length]. lia.
Qed.

Lemma np_unpackbits_bits (row : list Z) :
  Forall (fun b => b = 0 \/ b = 1) (np_unpackbits row).
Proof.
  unfold np_unpackbits. induction row as [|v row IH]; [constructor |].
  cbn [flat_map]. apply Forall_app. split; [| exact IH].
  unfold byte_bits. apply Forall_forall. intros b Hb.
  apply list_elem_of_In, in_map_iff in Hb as (i & <- & _).
  destruct (Z.testbit (as_uint8 v) i); cbn; auto.
Qed.

Lemma load_midi_data_Ret (f : MidiFile) (notes : list (list Z)) (timing : list spec_float) :
  load_midi_data f = Ret (notes, timing) ->
  notes = flat_map (fun x => map np_unpackbits (fst (encode_event (mf_ticks_per_beat f) x)))
                   (mf_messages f) /\
  timing = flat_map (fun x => snd (encode_event (mf_ticks_per_beat f) x)) (mf_messages f) /\
  notes <> [].
Proof.
  unfold load_midi_data. destruct (mf_messages f) as [|x0 l] eqn:E; [discriminate |].
  rewrite load_messages_concat. cbn [midi_data midi_time]. rewrite astype_times.
  assert (Hmap : forall l0 : list Message,
             map np_unpackbits
               (flat_map (fun x => fst (encode_event (mf_ticks_per_beat f) x)) l0)
             = flat_map (fun x => map np_unpackbits
                                      (fst (encode_event (mf_ticks_per_beat f) x))) l0).
  { induction l0 as [|x l' IH]; [reflexivity |]. cbn [flat_map]. by rewrite map_app, IH. }
  rewrite <- Hmap.
  destruct (flat_map (fun x => fst (encode_event (mf_ticks_per_beat f) x)) (x0 :: l))
    as [|r rs] eqn:Er; [discriminate |].
  intros [= Hn Ht]. subst timing.
  split; [| split; [reflexivity |]]; rewrite <- Hn; [reflexivity | discriminate].
Qed.

(** X1.  What [load_midi_file] returns for a parsed file is the
    concatenation, in the order of the messages, of what each message
    contributes: its bit rows and, beside them, its stored times. *)
Theorem load_midi_data_in_order (f : MidiFile) (notes : list (list Z))
    (timing : list spec_float) :
  load_midi_data f = Ret (notes, timing) ->
  notes = flat_map (fun x => map np_unpackbits (fst (encode_event (mf_ticks_per_beat f) x)))
                   (mf_messages f) /\
  timing = flat_map (fun x => snd (encode_event (mf_ticks_per_beat f) x)) (mf_messages f).
Proof. intros H. apply load_midi_data_Ret in H as (H1 & H2 & _). done. Qed.

(** The file [silent_file] loads as the record of its note-on. *)
Lemma load_midi_data_in_order_witness :
  [np_unpackbits [0; 144; 64; 100; 3]]
  = flat_map (fun x => map np_unpackbits (fst (encode_event 480 x))) (mf_messages silent_file) /\
  [S754_zero false] = flat_map (fun x => snd (encode_event 480 x)) (mf_messages silent_file).
Proof.
  apply (load_midi_data_in_order silent_file [np_unpackbits [0; 144; 64; 100; 3]]
           [S754_zero false]).
  vm_compute. reflexivity.
Defined.

(** X2.  The arrays that [load_midi_file] returns are aligned and
    well-shaped: as many times as rows, at least one row, every row of
    exactly 40 entries, every entry 0 or 1. *)
Theorem load_midi_data_shape (f : MidiFile) (notes : list (list Z))
    (timing : list spec_float) :
  load_midi_data f = Ret (notes, timing) ->
  length notes = length timing /\
  (1 <= length notes)%nat /\
  Forall (fun row => length row = 40%nat /\ Forall (fun b => b = 0 \/ b = 1) row) notes.
Proof.
  intros H. apply load_midi_data_Ret in H as (-> & -> & Hne).
  split; [| split].
  - clear Hne. induction (mf_messages f) as [|x l IH]; [reflexivity |].
    cbn [flat_map]. rewrite !length_app, IH, encode_event_chunks. cbn [fst snd].
    by rewrite !length_map, length_replicate.
  - destruct (flat_map _ _); [done | cbn; lia].
  - clear Hne. induction (mf_messages f) as [|x l IH]; [constructor |].
    cbn [flat_map]. apply Forall_app. split; [| exact IH].
    rewrite encode_event_chunks. cbn [fst].
    apply Forall_forall. intros row Hrow.
    apply list_elem_of_fmap in Hrow as (rec & -> & Hrec).
    apply list_elem_of_fmap in Hrec as (c & -> & _).
    split; [by rewrite np_unpackbits_length | apply np_unpackbits_bits].
Qed.

Lemma load_midi_data_shape_witness :
  length [np_unpackbits [0; 144; 64; 100; 3]] = length [S754_zero false] /\
  (1 <= length [np_unpackbits [0; 144; 64; 100; 3]%Z])%nat /\
  Forall (fun row => length row = 40%nat /\ Forall (fun b => b = 0 \/ b = 1) row)
         [np_unpackbits [0; 144; 64; 100; 3]].
Proof.
  apply (load_midi_data_shape silent_file [np_unpackbits [0; 144; 64; 100; 3]]
           [S754_zero false]).
  vm_compute. reflexivity.
Defined.


Lemma row_bytes_record (flag : Z) (c : list Z) :
  0 <= flag < 256 -> all_bytes c -> (1 <= length c <= 3)%nat ->
  row_bytes (np_unpackbits (record_of flag c)) = c.
Proof.
  intros Hf Hc Hlen. unfold row_bytes, all_bytes in *.
  destruct c as [|a [|b [|e [|z l]]]]; cbn [length] in Hlen; try lia;
    repeat match goal with H : Forall _ (_ :: _) |- _ => inversion_clear H end;
    unfold record_of; cbn [nth length];
    (rewrite np_packbits_unpackbits by (repeat constructor; cbn; lia));
    reflexivity.
Qed.

(** X4.  The rows of a message carry its bytes without loss: reading from
    each row the bytes that the decoder reads and putting them end to end
    gives the bytes of the message, however long it is. *)
Theorem rows_carry_bytes (tpb : Z) (x : Message) :
  all_bytes (msg_bytes x) ->
  flat_map row_bytes (map np_unpackbits (fst (encode_event tpb x))) = msg_bytes x.
Proof.
  intros Hb. rewrite encode_event_chunks. cbn [fst].
  assert (Hf : 0 <= continuation x < 256).
  { unfold continuation. destruct (3 <? _); lia. }
  generalize dependent (continuation x). intros flag Hf.
  rewrite <- (chunks3_concat (msg_bytes x)) at 2.
  assert (Hall : Forall all_bytes (chunks3 (msg_bytes x))).
  { revert Hb. unfold all_bytes.
    induction (msg_bytes x) as [|a|a b|a b c l IH] using list_ind3; intros Hb; cbn [chunks3].
    - constructor.
    - by constructor.
    - by constructor.
    - inversion_clear Hb as [|? ? Ha Hb']. inversion_clear Hb' as [|? ? Hb1 Hb''].
      inversion_clear Hb'' as [|? ? Hc Hl].
      apply Forall_cons_2; [| by apply IH].
      repeat (apply Forall_cons_2; [assumption |]). apply Forall_nil_2. }
  pose proof (chunks3_sizes (msg_bytes x)) as Hsz.
  induction (chunks3 (msg_bytes x)) as [|c cs IH]; [reflexivity |].
  inversion_clear Hall. inversion_clear Hsz.
  cbn [map flat_map concat]. rewrite row_bytes_record by assumption. by rewrite IH.
Qed.

Lemma rows_carry_bytes_witness :
  flat_map row_bytes
    (map np_unpackbits
       (fst (encode_event 480 {| msg_bytes := [255; 81; 3; 7; 161; 32];
                                 msg_time := float64_of_int 0 |})))
  = [255; 81; 3; 7; 161; 32].
Proof.
  apply (rows_carry_bytes 480 {| msg_bytes := [255; 81; 3; 7; 161; 32];
                                 msg_time := float64_of_int 0 |}).
  repeat constructor; lia.
Defined.

(** ** The decoder: totality, invariants, what is dropped *)

Lemma packbits_groups_length (n : nat) :
  forall bits : list Z,
    (length bits <= n)%nat ->
    length (packbits_groups n bits) = ((length bits + 7) / 8)%nat.
Proof.
  induction n as [|n IH]; intros bits Hn.
  - destruct bits; [reflexivity | cbn in Hn; lia].
  - destruct bits as [|b bits]; [reflexivity |].
    cbn [packbits_groups length]. rewrite IH by (rewrite length_drop; cbn [length] in *; lia).
    rewrite length_drop. cbn [length].
    lia.
Qed.

Lemma np_packbits_length (bits : list Z) :
  length (np_packbits bits) = ((length bits + 7) / 8)%nat.
Proof. unfold np_packbits. by apply packbits_groups_length. Qed.

(** A row of at least 33 entries packs to at least five bytes. *)
Lemma np_packbits_five (row : list Z) :
  (33 <= length row)%nat ->
  exists (m0 b1 b2 b3 m4 : Z) (rest : list Z),
    np_packbits row = m0 :: b1 :: b2 :: b3 :: m4 :: rest.
Proof.
  intros H. pose proof (np_packbits_length row) as Hl.
  assert (5 <= length (np_packbits row))%nat.
  { rewrite Hl. apply Nat.div_le_lower_bound; lia. }
  destruct (np_packbits row) as [|m0 [|b1 [|b2 [|b3 [|m4 rest]]]]]; cbn [length] in *; try lia.
  by exists m0, b1, b2, b3, m4, rest.
Qed.

Section DecoderMore.

Variable from_bytes : list Z -> exn + list Z.
Variable np_mean : list scalar -> spec_float.

Lemma track_time_nonneg (single : bool) (m : spec_float) (t : Z) :
  track_time single m = Ret t -> 0 <= t.
Proof.
  unfold track_time. destruct (int_round _) as [z | e |]; cbn [mbind outcome_bind];
    [| discriminate | discriminate].
  intros [= <-]. lia.
Qed.

Lemma appended_ok (bs : list Z) (time : outcome Z) :
  (forall t : Z, time = Ret t -> 0 <= t) ->
  Forall (track_ok from_bytes) (appended from_bytes bs time).
Proof.
  intros H. unfold appended. destruct (from_bytes bs) as [e | built] eqn:E; [constructor |].
  destruct time as [t | e |]; [| constructor | constructor].
  apply Forall_cons_2; [| constructor]. split; [by apply H | by exists bs].
Qed.

Lemma appended_length (bs : list Z) (time : outcome Z) :
  (length (appended from_bytes bs time) <= 1)%nat.
Proof. unfold appended. destruct (from_bytes bs); [cbn; lia |]. destruct time; cbn; lia. Qed.

Lemma flushed_ok (d : decoder) :
  Forall (track_ok from_bytes) (flushed from_bytes np_mean d).
Proof.
  unfold flushed. destruct (0 <? length (aggregator d))%nat; [| constructor].
  apply appended_ok. intros t. apply track_time_nonneg.
Qed.

Lemma own_message_ok (bs : list Z) (t : scalar) :
  Forall (track_ok from_bytes) (own_message from_bytes bs t).
Proof. apply appended_ok. intros z. apply track_time_nonneg. Qed.

Lemma flushed_length (d : decoder) : (length (flushed from_bytes np_mean d) <= 1)%nat.
Proof. unfold flushed. destruct (_ <? _)%nat; [apply appended_length | cbn; lia]. Qed.

Lemma own_message_length (bs : list Z) (t : scalar) :
  (length (own_message from_bytes bs t) <= 1)%nat.
Proof. apply appended_length. Qed.

(** One step on a well-shaped row with a time at its index: it returns,
    and what it appends is built by the library, not negative in time, and
    at most two messages. *)
Lemma decode_record_step (timing : list scalar) (index : nat) (row : list Z) (d : decoder) :
  (33 <= length row)%nat -> (index < length timing)%nat ->
  exists (d' : decoder) (new : list TrackMessage),
    decode_record from_bytes np_mean timing index row d = Ret d' /\
    track d' = track d ++ new /\
    Forall (track_ok from_bytes) new /\ (length new <= 2)%nat /\
    (flag_set row -> new = []).
Proof.
  intros Hrow Hidx.
  destruct (np_packbits_five row Hrow) as (m0 & b1 & b2 & b3 & m4 & rest & Hp).
  destruct (lookup_lt_is_Some_2 timing index Hidx) as [t Ht].
  destruct (Z.lt_ge_cases 0 m0) as [Hm | Hm].
  - rewrite (decode_record_set from_bytes np_mean row m0 b1 b2 b3 m4 rest timing index t d
               Hp Hm Ht).
    eexists _, []. cbn [track]. rewrite app_nil_r.
    repeat split; [constructor | cbn; lia].
  - destruct (decode_record_clear from_bytes np_mean row m0 b1 b2 b3 m4 rest timing index t d
                Hp Hm Ht) as (d' & Hd & Htr & _).
    exists d', (flushed from_bytes np_mean d
                ++ own_message from_bytes (valid_bytes b1 b2 b3 m4) t).
    split; [exact Hd |]. split; [exact Htr |].
    split; [apply Forall_app; split; [apply flushed_ok | apply own_message_ok] |].
    split.
    + rewrite length_app. pose proof (flushed_length d).
      pose proof (own_message_length (valid_bytes b1 b2 b3 m4) t). lia.
    + intros (m0' & Hm0 & Hpos). rewrite Hp in Hm0. injection Hm0 as <-. lia.
Qed.

Lemma decode_records_steps (timing : list scalar) (notes : list (list Z)) :
  forall (index : nat) (d : decoder),
    Forall (fun row => (33 <= length row)%nat) notes ->
    (index + length notes <= length timing)%nat ->
    exists (d' : decoder) (new : list TrackMessage),
      decode_records from_bytes np_mean timing index notes d = Ret d' /\
      track d' = track d ++ new /\
      Forall (track_ok from_bytes) new /\ (length new <= 2 * length notes)%nat /\
      (Forall flag_set notes -> new = []).
Proof.
  induction notes as [|row notes IH]; intros index d Hrows Hlen.
  - exists d, []. cbn. rewrite app_nil_r. repeat split; [constructor | lia].
  - inversion_clear Hrows as [|? ? Hrow Hrows']. cbn [length] in Hlen.
    destruct (decode_record_step timing index row d Hrow ltac:(lia))
      as (d1 & new1 & Hd1 & Htr1 & Hok1 & Hlen1 & Hset1).
    destruct (IH (S index) d1 Hrows' ltac:(lia))
      as (d2 & new2 & Hd2 & Htr2 & Hok2 & Hlen2 & Hset2).
    exists d2, (new1 ++ new2). cbn [decode_records]. rewrite Hd1. cbn [mbind outcome_bind].
    split; [exact Hd2 |]. split; [by rewrite Htr2, Htr1, app_assoc |].
    split; [by apply Forall_app |]. split; [rewrite length_app; cbn [length]; lia |].
    intros Hall. inversion_clear Hall as [|? ? H1 H2]. by rewrite Hset1, Hset2.
Qed.

Lemma decode_records_app (timing : list scalar) (a b : list (list Z)) :
  forall (index : nat) (d : decoder),
    decode_records from_bytes np_mean timing index (a ++ b) d
    = d' ← decode_records from_bytes np_mean timing index a d;
      decode_records from_bytes np_mean timing (index + length a) b d'.
Proof.
  induction a as [|row a IH]; intros index d.
  - cbn. by rewrite Nat.add_0_r.
  - cbn [app decode_records length].
    destruct (decode_record from_bytes np_mean timing index row d) as [d1 | e |];
      cbn [mbind outcome_bind]; [| done | done].
    rewrite IH. by replace (S index + length a)%nat with (index + S (length a))%nat by lia.
Qed.

(** X5.  On rows of at least 33 entries (the 40 of the notebook) and a
    time for every row, [create_midi_track] returns a track, whatever bytes
    the rows hold and whatever the library rejects: no exception leaves
    the loop. *)
Theorem create_midi_track_returns (notes : list (list Z)) (timing : list scalar) :
  Forall (fun row => (33 <= length row)%nat) notes ->
  (length notes <= length timing)%nat ->
  exists tr : list TrackMessage, create_midi_track from_bytes np_mean notes timing = Ret tr.
Proof.
  intros Hrows Hlen.
  destruct (decode_records_steps timing notes 0 decoder_init Hrows ltac:(lia))
    as (d' & new & Hd & _).
  unfold create_midi_track. rewrite Hd. by eexists.
Qed.

Lemma aggregate_track (msg_array : list Z) (timing : list scalar) (index : nat)
    (xs : list nat) :
  forall d d' : decoder,
    aggregate msg_array timing index xs d = Ret d' -> track d' = track d.
Proof.
  induction xs as [|x xs IH]; intros d d' H; cbn [aggregate] in H.
  - by injection H as <-.
  - destruct (getitem msg_array x); cbn [mbind outcome_bind] in H; try discriminate.
    destruct (getitem timing index); cbn [mbind outcome_bind] in H; try discriminate.
    by apply IH in H.
Qed.

Lemma append_or_print_track (d : decoder) (body : outcome TrackMessage) :
  (forall m, body = Ret m -> track_ok from_bytes m) ->
  exists new : list TrackMessage,
    track (append_or_print d body) = track d ++ new /\
    Forall (track_ok from_bytes) new /\ (length new <= 1)%nat.
Proof.
  intros H. destruct body as [m | e |]; cbn [append_or_print track].
  - exists [m]. repeat split; [apply Forall_cons_2; [by apply H | constructor] | cbn; lia].
  - exists []. rewrite app_nil_r. repeat split; [constructor | cbn; lia].
  - exists []. rewrite app_nil_r. repeat split; [constructor | cbn; lia].
Qed.

(** One step that returns, on any row and any list of times. *)
Lemma decode_record_track (timing : list scalar) (index : nat) (row : list Z)
    (d d' : decoder) :
  decode_record from_bytes np_mean timing index row d = Ret d' ->
  exists new : list TrackMessage,
    track d' = track d ++ new /\ Forall (track_ok from_bytes) new /\ (length new <= 2)%nat.
Proof.
  unfold decode_record.
  destruct (getitem (np_packbits row) 0) as [m0 | e |]; cbn [mbind outcome_bind];
    try discriminate.
  destruct (0 <? m0).
  - destruct (getitem (np_packbits row) 4) as [m4 | e |]; cbn [mbind outcome_bind];
      try discriminate.
    intros H. apply aggregate_track in H. exists []. rewrite app_nil_r.
    repeat split; [done | constructor | cbn; lia].
  - intros [= <-]. unfold emit_own.
    destruct (append_or_print_track (flush from_bytes np_mean d)
                (m4 ← getitem (np_packbits row) 4;
                 msg ← Message_from_bytes from_bytes
                         (take (Z.to_nat (Z.min 3 m4)) (drop 1 (np_packbits row)));
                 t ← getitem timing index;
                 time ← own_time t;
                 Ret (set_time msg time))) as (new & Hn & Hok & Hl).
    { intros m. destruct (getitem (np_packbits row) 4) as [m4 | |];
        cbn [mbind outcome_bind]; try discriminate.
      unfold Message_from_bytes. destruct (from_bytes _) as [e | built] eqn:E;
        cbn [mbind outcome_bind]; try discriminate.
      destruct (getitem timing index) as [t | |]; cbn [mbind outcome_bind]; try discriminate.
      destruct (own_time t) as [time | |] eqn:Et; cbn [mbind outcome_bind]; try discriminate.
      intros [= <-]. split; [by apply track_time_nonneg in Et | by eexists]. }
    exists (flushed from_bytes np_mean d ++ new).
    destruct (flush_spec from_bytes np_mean d) as (_ & _ & Hf). rewrite Hn, Hf, app_assoc.
    split; [reflexivity |]. split; [apply Forall_app; split; [apply flushed_ok | exact Hok] |].
    rewrite length_app. pose proof (flushed_length d). lia.
Qed.

(** X6.  Every message on a track that [create_midi_track] returns has a
    time that is not negative and the bytes of a message that the library
    built from bytes it accepted, and the track holds at most two messages
    per row.  Where the library accepts the bytes of the messages it
    builds and builds the same message from them, as a decoder does with
    what it encoded, the bytes on the track are bytes that the library
    accepts. *)
Theorem create_midi_track_invariant (notes : list (list Z)) (timing : list scalar)
    (tr : list TrackMessage) :
  create_midi_track from_bytes np_mean notes timing = Ret tr ->
  Forall (fun m => 0 <= tm_time m /\ exists bs : list Z, from_bytes bs = inr (tm_bytes m)) tr /\
  (length tr <= 2 * length notes)%nat /\
  ((forall bs built : list Z, from_bytes bs = inr built -> from_bytes built = inr built) ->
   Forall (fun m => from_bytes (tm_bytes m) = inr (tm_bytes m)) tr).
Proof.
  unfold create_midi_track.
  assert (H : forall (index : nat) (d d' : decoder),
             decode_records from_bytes np_mean timing index notes d = Ret d' ->
             exists new, track d' = track d ++ new /\ Forall (track_ok from_bytes) new /\
                         (length new <= 2 * length notes)%nat).
  { induction notes as [|row notes IH]; intros index d d' Hd; cbn [decode_records] in Hd.
    - injection Hd as <-. exists []. rewrite app_nil_r. repeat split; [constructor | cbn; lia].
    - destruct (decode_record from_bytes np_mean timing index row d) as [d1 | e |] eqn:E1;
        cbn [mbind outcome_bind] in Hd; try discriminate.
      apply decode_record_track in E1 as (new1 & Ht1 & Hok1 & Hl1).
      apply IH in Hd as (new2 & Ht2 & Hok2 & Hl2).
      exists (new1 ++ new2). rewrite Ht2, Ht1, app_assoc. split; [reflexivity |].
      split; [by apply Forall_app |]. rewrite length_app. cbn [length]. lia. }
  destruct (decode_records from_bytes np_mean timing 0 notes decoder_init) as [d' | e |] eqn:E;
    cbn [mbind outcome_bind]; try discriminate.
  intros [= <-]. apply H in E as (new & Ht & Hok & Hl). cbn [decoder_init track app] in Ht.
  rewrite Ht. split; [exact Hok |]. split; [exact Hl |].
  intros Hre. eapply Forall_impl; [exact Hok |].
  intros m (_ & bs & Hbs). by apply (Hre bs).
Qed.

(** X7.  Rows with the flag set at the end of the input never reach the
    track: with or without them [create_midi_track] gives the same
    result.  What they put in the buffer is not written. *)
Theorem trailing_flag_set_rows_dropped (notes tail : list (list Z)) (timing : list scalar) :
  Forall (fun row => (33 <= length row)%nat) tail ->
  Forall flag_set tail ->
  (length (notes ++ tail) <= length timing)%nat ->
  create_midi_track from_bytes np_mean (notes ++ tail) timing
  = create_midi_track from_bytes np_mean notes timing.
Proof.
  intros Hrows Hset Hlen. rewrite length_app in Hlen.
  unfold create_midi_track. rewrite decode_records_app.
  destruct (decode_records from_bytes np_mean timing 0 notes decoder_init) as [d1 | e |];
    cbn [mbind outcome_bind]; [| done | done].
  destruct (decode_records_steps timing tail (0 + length notes) d1 Hrows ltac:(lia))
    as (d2 & new & Hd2 & Htr & _ & _ & Hnil).
  rewrite Hd2. cbn [mbind outcome_bind]. rewrite Htr, (Hnil Hset). by rewrite app_nil_r.
Qed.

End DecoderMore.

(** Two rows with the flag set and one with it clear: a track is returned. *)
Lemma create_midi_track_returns_witness :
  exists tr : list TrackMessage,
    create_midi_track mido_from_bytes numpy_mean (tempo_rows ++ note_on_rows)
                      (replicate 3 (float32 (S754_zero false))) = Ret tr.
Proof.
  apply (create_midi_track_returns mido_from_bytes numpy_mean (tempo_rows ++ note_on_rows)
           (replicate 3 (float32 (S754_zero false)))).
  - repeat (apply Forall_cons_2; [vm_compute; lia |]). apply Forall_nil_2.
  - vm_compute. lia.
Defined.

(** The library instance accepts the bytes of every message it builds,
    and builds the same message from them. *)
Lemma mido_from_bytes_rebuilds (bs built : list Z) :
  mido_from_bytes bs = inr built -> mido_from_bytes built = inr built.
Proof.
  destruct bs as [|status data]; [discriminate |].
  unfold mido_from_bytes at 1.
  destruct (status =? 240) eqn:E240.
  { destruct (rev data) as [|last body] eqn:Er; [discriminate |].
    destruct ((last =? 247) && data_bytes_ok body) eqn:Eb; [| discriminate].
    intros [= <-]. unfold mido_from_bytes. by rewrite E240, Er, Eb. }
  destruct (status_length status) as [n |] eqn:EL; [| discriminate].
  destruct (negb (data_bytes_ok data)) eqn:Ed; [discriminate |].
  destruct (((224 <=? status) && (status <=? 239)) || (status =? 242)) eqn:Ep.
  { destruct data as [|d0 [|d1 more]]; try discriminate.
    intros [= <-]. unfold mido_from_bytes. rewrite E240, EL, Ep.
    apply negb_false_iff in Ed. cbn [data_bytes_ok forallb] in Ed |- *.
    apply andb_prop in Ed as [H0 Ed]. apply andb_prop in Ed as [H1 _].
    by rewrite H0, H1. }
  destruct (status =? 241) eqn:E241.
  { destruct data as [|d0 more]; try discriminate.
    intros [= <-]. unfold mido_from_bytes. rewrite E240, EL, Ep, E241.
    apply negb_false_iff in Ed. cbn [data_bytes_ok forallb] in Ed |- *.
    apply andb_prop in Ed as [H0 _]. by rewrite H0. }
  destruct (S (length data) =? n)%nat eqn:En; [| discriminate].
  intros [= <-]. unfold mido_from_bytes. by rewrite E240, EL, Ed, Ep, E241, En.
Qed.

(** The track of a set-tempo message and a note-on: the note-on alone. *)
Lemma create_midi_track_invariant_witness :
  Forall (fun m => 0 <= tm_time m /\ exists bs : list Z, mido_from_bytes bs = inr (tm_bytes m))
         [ {| tm_bytes := [144; 64; 100]; tm_time := 0 |} ] /\
  (length [ {| tm_bytes := [144; 64; 100]%Z; tm_time := 0%Z |} ]
   <= 2 * length (tempo_rows ++ note_on_rows))%nat /\
  Forall (fun m => mido_from_bytes (tm_bytes m) = inr (tm_bytes m))
         [ {| tm_bytes := [144; 64; 100]; tm_time := 0 |} ].
Proof.
  destruct (create_midi_track_invariant mido_from_bytes numpy_mean (tempo_rows ++ note_on_rows)
              (replicate 3 (float32 (S754_zero false)))
              [ {| tm_bytes := [144; 64; 100]; tm_time := 0 |} ]) as (H1 & H2 & H3).
  { vm_compute. reflexivity. }
  split; [exact H1 |]. split; [exact H2 |]. apply H3, mido_from_bytes_rebuilds.
Defined.

(** The rows of a set-tempo message after the row of a note-on change
    nothing. *)
Lemma trailing_flag_set_rows_dropped_witness :
  create_midi_track mido_from_bytes numpy_mean (note_on_rows ++ tempo_rows)
                    (replicate 3 (float32 (S754_zero false)))
  = create_midi_track mido_from_bytes numpy_mean note_on_rows
                      (replicate 3 (float32 (S754_zero false))).
Proof.
  apply (trailing_flag_set_rows_dropped mido_from_bytes numpy_mean note_on_rows tempo_rows
           (replicate 3 (float32 (S754_zero false)))).
  - repeat (apply Forall_cons_2; [vm_compute; lia |]). apply Forall_nil_2.
  - repeat (apply Forall_cons_2;
              [eexists; split; [vm_compute; reflexivity | lia] |]). apply Forall_nil_2.
  - vm_compute. lia.
Defined.

(** ** Loading, then decoding *)




Section LoadThenDecode.

Variable from_bytes : list Z -> exn + list Z.
Variable np_mean : list scalar -> spec_float.
Variable tpb : Z.

Local Abbreviation rows_of x := (map np_unpackbits (fst (encode_event tpb x))).
Local Abbreviation times_of x := (map float32 (snd (encode_event tpb x))).
Local Abbreviation time_of x := (float32 (stored_time tpb x)).














End LoadThenDecode.



(** ** [extract_samples]: when it returns, when it raises *)

Lemma np_reshape_ok (a : ndarray) (r w : nat) :
  size a = (r * w)%nat ->
  np_reshape a r w = Ret {| base := base a; offset := offset a; rows := r; width := w |}.
Proof. intros H. unfold np_reshape. by destruct (Nat.eqb_spec (size a) (r * w)). Qed.

Lemma np_reshape_bad (a : ndarray) (r w : nat) :
  size a <> (r * w)%nat -> np_reshape a r w = Raise ValueError.
Proof. intros H. unfold np_reshape. by destruct (Nat.eqb_spec (size a) (r * w)). Qed.

Lemma np_slice_size_fits (a : ndarray) (lo n : nat) :
  (lo + n <= rows a)%nat -> size (np_slice a lo (lo + n)) = (n * width a)%nat.
Proof. intros H. unfold size, np_slice. cbn [rows width]. f_equal. lia. Qed.

Lemma np_slice_size_short (a : ndarray) (lo n : nat) :
  (rows a < lo + n)%nat -> (1 <= n)%nat -> (1 <= width a)%nat ->
  size (np_slice a lo (lo + n)) <> (n * width a)%nat.
Proof. intros H Hn Hw. unfold size, np_slice. cbn [rows width]. nia. Qed.

(** X10.  Under the guard of the training loop, [p + seq_length + 1] no
    more than the rows of the file, with [seq_length >= 1] and a record
    array of width 40 beside a time array of width 1, [extract_samples]
    returns a window: no slice, reshape or row assignment fails. *)
Theorem extract_samples_returns (noise_midi noise_time : nat -> Q) (rnd : nat)
    (midis_array midi_times_array : list ndarray) (p S cf : nat)
    (h : gmap nat (list Q)) (m t : ndarray) :
  midis_array !! cf = Some m ->
  midi_times_array !! cf = Some t ->
  width m = 40%nat -> width t = 1%nat ->
  (1 <= S)%nat ->
  (p + S + 1 <= rows m)%nat ->
  (p + S + 1 <= rows t)%nat ->
  exists (xm xt : ndarray) (h' : gmap nat (list Q)),
    extract_samples noise_midi noise_time rnd midis_array midi_times_array p S cf h
    = (Ret (xm, xt, window m (p + 1) S 40, window t (p + 1) S 1), h') /\
    rows xm = S /\ width xm = 40%nat /\ rows xt = S /\ width xt = 1%nat.
Proof.
  intros Hm Ht Wm Wt HS Rm Rt.
  assert (E1 : np_reshape (np_slice m p (p + S)) S 40
               = Ret (window m p S 40)).
  { rewrite np_reshape_ok by (rewrite np_slice_size_fits, Wm; lia).
    unfold window, np_slice. cbn [base offset]. rewrite Wm. do 2 f_equal. lia. }
  assert (E2 : np_reshape (np_slice t p (p + S)) S 1 = Ret (window t p S 1)).
  { rewrite np_reshape_ok by (rewrite np_slice_size_fits, Wt; lia).
    unfold window, np_slice. cbn [base offset]. rewrite Wt. do 2 f_equal. lia. }
  assert (E3 : np_reshape (np_slice m (p + 1) (p + S + 1)) S 40
               = Ret (window m (p + 1) S 40)).
  { replace (p + S + 1)%nat with (p + 1 + S)%nat by lia.
    rewrite np_reshape_ok by (rewrite np_slice_size_fits, Wm; lia).
    unfold window, np_slice. cbn [base offset]. rewrite Wm. do 2 f_equal. lia. }
  assert (E4 : np_reshape (np_slice t (p + 1) (p + S + 1)) S 1
               = Ret (window t (p + 1) S 1)).
  { replace (p + S + 1)%nat with (p + 1 + S)%nat by lia.
    rewrite np_reshape_ok by (rewrite np_slice_size_fits, Wt; lia).
    unfold window, np_slice. cbn [base offset]. rewrite Wt. do 2 f_equal. lia. }
  assert (Hr : (rnd mod S <? S)%nat = true).
  { apply Nat.ltb_lt, Nat.mod_upper_bound. lia. }
  unfold extract_samples, mbind, NP_bind, lift, np_astype, np_maximum0, np_iadd,
    np_zero_row, alloc, mret, NP_ret.
  rewrite (getitem_Some _ _ _ Hm), (getitem_Some _ _ _ Ht). cbv beta iota.
  rewrite E1. cbv beta iota. rewrite E2. cbv beta iota.
  rewrite E3. cbv beta iota. rewrite E4. cbv beta iota.
  rewrite (randint_pos rnd S) by lia. cbv beta iota.
  cbn [rows width window]. rewrite Hr. cbv beta iota.
  eexists _, _, _. split; [reflexivity |]. cbn [rows width]. done.
Qed.

(** X11.  A window that does not fit is refused, not shortened: when
    [p + seq_length + 1] exceeds the rows of the record array,
    [extract_samples] raises [ValueError] (from a reshape of a clipped
    slice). *)
Theorem extract_samples_window_too_long (noise_midi noise_time : nat -> Q) (rnd : nat)
    (midis_array midi_times_array : list ndarray) (p S cf : nat)
    (h : gmap nat (list Q)) (m t : ndarray) :
  midis_array !! cf = Some m ->
  midi_times_array !! cf = Some t ->
  width m = 40%nat ->
  (1 <= S)%nat ->
  (rows m < p + S + 1)%nat ->
  fst (extract_samples noise_midi noise_time rnd midis_array midi_times_array p S cf h)
  = Raise ValueError.
Proof.
  intros Hm Ht Wm HS Rm.
  assert (E3 : np_reshape (np_slice m (p + 1) (p + S + 1)) S 40 = Raise ValueError).
  { apply np_reshape_bad. replace (p + S + 1)%nat with (p + 1 + S)%nat by lia.
    rewrite <- Wm. apply np_slice_size_short; lia. }
  unfold extract_samples, mbind, NP_bind, lift, np_astype, alloc.
  rewrite (getitem_Some _ _ _ Hm), (getitem_Some _ _ _ Ht). cbv beta iota.
  destruct (np_reshape (np_slice m p (p + S)) S 40) as [v1 | e1 |] eqn:R1; cbv beta iota.
  - destruct (np_reshape (np_slice t p (p + S)) S 1) as [v2 | e2 |] eqn:R2; cbv beta iota.
    + rewrite E3. reflexivity.
    + unfold np_reshape in R2. destruct (_ =? _)%nat in R2; [discriminate |].
      by injection R2 as <-.
    + unfold np_reshape in R2. destruct (_ =? _)%nat in R2; discriminate.
  - unfold np_reshape in R1. destruct (_ =? _)%nat in R1; [discriminate |].
    by injection R1 as <-.
  - unfold np_reshape in R1. destruct (_ =? _)%nat in R1; discriminate.
Qed.

(** A window of one timestep at cursor 0 of the stream of three records. *)
Lemma extract_samples_returns_witness :
  exists (xm xt : ndarray) (h' : gmap nat (list Q)),
    extract_samples (fun _ => 1 # 10) (fun _ => 1 # 10) 3 [records 0 3] [times 0 3] 0 1 0
                    window_store
    = (Ret (xm, xt, window (records 0 3) (0 + 1) 1 40, window (times 0 3) (0 + 1) 1 1), h') /\
    rows xm = 1%nat /\ width xm = 40%nat /\ rows xt = 1%nat /\ width xt = 1%nat.
Proof.
  apply (extract_samples_returns (fun _ => 1 # 10) (fun _ => 1 # 10) 3
           [records 0 3] [times 0 3] 0 1 0 window_store (records 0 3) (times 0 3));
    try reflexivity; cbn; lia.
Defined.

(** A window of two timesteps at cursor 2 of the stream of three records. *)
Lemma extract_samples_window_too_long_witness :
  fst (extract_samples (fun _ => 1 # 10) (fun _ => 1 # 10) 3 [records 0 3] [times 0 3] 2 2 0
                       window_store)
  = Raise ValueError.
Proof.
  apply (extract_samples_window_too_long (fun _ => 1 # 10) (fun _ => 1 # 10) 3
           [records 0 3] [times 0 3] 2 2 0 window_store (records 0 3) (times 0 3));
    try reflexivity; cbn; lia.
Defined.

Lemma relu_nonneg (q : Q) : (0 <= relu q)%Q.
Proof.
  unfold relu. destruct (Qle_bool q 0) eqn:E; [apply Qle_refl |].
  apply Qlt_le_weak, Qnot_le_lt. intros H. apply Qle_bool_iff in H. congruence.
Qed.

Lemma set_row_nonneg (r w : nat) (l : list Q) :
  Forall (fun q => (0 <= q)%Q) l -> Forall (fun q => (0 <= q)%Q) (set_row r w l).
Proof.
  intros H. unfold set_row. apply Forall_app. split; [by apply Forall_take |].
  apply Forall_app. split; [| by apply Forall_drop].
  apply Forall_replicate. apply Qle_refl.
Qed.

Lemma clamped_sum_nonneg (stored noise : list Q) :
  Forall (fun q => (0 <= q)%Q) (map relu (zip_with Qplus stored noise)).
Proof.
  apply Forall_forall. intros q Hq. apply list_elem_of_In, in_map_iff in Hq as (y & <- & _).
  apply relu_nonneg.
Qed.

(** X12.  Every scalar of the two input arrays that [extract_samples]
    returns is at least 0, and the arrays are full: [seq_length * 40]
    record scalars and [seq_length] times. *)
Theorem window_inputs_nonnegative (noise_midi noise_time : nat -> Q) (rnd : nat)
    (midis_array midi_times_array : list ndarray) (p S cf : nat)
    (h h' : gmap nat (list Q)) (m t xm xt ym yt : ndarray) :
  midis_array !! cf = Some m ->
  midi_times_array !! cf = Some t ->
  width m = 40%nat -> width t = 1%nat ->
  backed h m -> backed h t ->
  extract_samples noise_midi noise_time rnd midis_array midi_times_array p S cf h
  = (Ret (xm, xt, ym, yt), h') ->
  length (contents h' xm) = (S * 40)%nat /\
  length (contents h' xt) = S /\
  Forall (fun q => (0 <= q)%Q) (contents h' xm) /\
  Forall (fun q => (0 <= q)%Q) (contents h' xt).
Proof.
  intros Hm Ht Wm Wt Bm Bt Hrun.
  pose proof (wp_use _ _ _ _ _
                (extract_samples_wp noise_midi noise_time rnd midis_array midi_times_array
                   p S cf h m t Hm Ht Wm Wt Bm Bt) Hrun) as Hpost.
  cbv beta iota in Hpost.
  destruct Hpost as ((HS & Rm & Rt) & (l3 & -> & Hl3 & Hx) & (l4 & -> & Hl4 & Hy) & _).
  assert (Hr : (rnd mod S < S)%nat) by (apply Nat.mod_upper_bound; lia).
  set (X := map relu (zip_with Qplus (contents h (window m p S 40))
                               (normal noise_midi (S * 5 * 8)))) in *.
  set (Y := map relu (zip_with Qplus (contents h (window t p S 1))
                               (normal noise_time S))) in *.
  assert (LX : length X = (S * 5 * 8)%nat).
  { apply clamped_sum_length.
    rewrite contents_length by (apply backed_window; [done | done | lia]).
    unfold size, window. cbn [rows width]. lia. }
  assert (LY : length Y = S).
  { apply clamped_sum_length.
    rewrite contents_length by (apply backed_window; [done | done | lia]).
    unfold size, window. cbn [rows width]. lia. }
  rewrite (contents_whole h' l3 S 40 _ Hx) by (rewrite set_row_length; lia).
  rewrite (contents_whole h' l4 S 1 _ Hy) by (rewrite set_row_length; lia).
  rewrite !set_row_length by lia.
  split; [lia |]. split; [lia |].
  split; apply set_row_nonneg, clamped_sum_nonneg.
Qed.

Lemma window_inputs_nonnegative_witness :
  length (contents (snd (window_run (-1) 0))
            {| base := 4; offset := 0; rows := 2; width := 40 |}) = (2 * 40)%nat /\
  length (contents (snd (window_run (-1) 0))
            {| base := 5; offset := 0; rows := 2; width := 1 |}) = 2%nat /\
  Forall (fun q => (0 <= q)%Q)
         (contents (snd (window_run (-1) 0))
            {| base := 4; offset := 0; rows := 2; width := 40 |}) /\
  Forall (fun q => (0 <= q)%Q)
         (contents (snd (window_run (-1) 0))
            {| base := 5; offset := 0; rows := 2; width := 1 |}).
Proof.
  assert (B0 : backed window_store (records 0 3)).
  { eexists. split; [reflexivity | vm_compute; lia]. }
  assert (B1 : backed window_store (times 0 3)).
  { eexists. split; [reflexivity | vm_compute; lia]. }
  apply (window_inputs_nonnegative (fun _ => (-1)%Q) (fun _ => (-1)%Q) 0
           [records 0 3] [times 0 3] 0 2 0 window_store (snd (window_run (-1) 0))
           (records 0 3) (times 0 3)
           {| base := 4; offset := 0; rows := 2; width := 40 |}
           {| base := 5; offset := 0; rows := 2; width := 1 |}
           {| base := 0; offset := 40; rows := 2; width := 40 |}
           {| base := 1; offset := 1; rows := 2; width := 1 |}
           eq_refl eq_refl eq_refl eq_refl B0 B1).
  vm_compute. reflexivity.
Defined.

(** ** The training loop: what no run of it does *)

Lemma py_pos_lt {A} (l : list A) (i : Z) (n : nat) :
  py_pos l i = Ret n -> (n < length l)%nat.
Proof.
  unfold py_pos.
  destruct ((0 <=? i) && (i <? Z.of_nat (length l))) eqn:E1.
  - intros [= <-]. apply andb_true_iff in E1 as [H1 H2].
    apply Z.leb_le in H1. apply Z.ltb_lt in H2. lia.
  - destruct ((i <? 0) && (- Z.of_nat (length l) <=? i)) eqn:E2; [| discriminate].
    intros [= <-]. apply andb_true_iff in E2 as [H1 H2].
    apply Z.ltb_lt in H1. apply Z.leb_le in H2. lia.
Qed.

Lemma py_pos_length {A B} (l : list A) (l' : list B) (i : Z) :
  length l' = length l -> py_pos l' i = py_pos l i.
Proof. intros H. unfold py_pos. by rewrite H. Qed.

Lemma py_setitem_Ret {A} (l l' : list A) (i : Z) (v : A) :
  py_setitem l i v = Ret l' ->
  exists n : nat, py_pos l i = Ret n /\ (n < length l)%nat /\ l' = <[n := v]> l.
Proof.
  unfold py_setitem. destruct (py_pos l i) as [n | e |] eqn:E; cbn [mbind outcome_bind];
    [| discriminate | discriminate].
  intros [= <-]. exists n. split; [done |]. split; [by eapply py_pos_lt | done].
Qed.

Lemma py_setitem_length {A} (l l' : list A) (i : Z) (v : A) :
  py_setitem l i v = Ret l' -> length l' = length l.
Proof. intros H. apply py_setitem_Ret in H as (n & _ & _ & ->). apply length_insert. Qed.

Lemma py_getitem_setitem {A} (l l' : list A) (i : Z) (v : A) :
  py_setitem l i v = Ret l' -> py_getitem l' i = Ret v.
Proof.
  intros H. apply py_setitem_Ret in H as (n & Hn & Hlt & ->).
  unfold py_getitem. rewrite (py_pos_length l) by apply length_insert.
  rewrite Hn. cbn [mbind outcome_bind]. apply getitem_Some. by apply list_lookup_insert_eq.
Qed.

Lemma py_setitem_Forall {A} (P : A -> Prop) (l l' : list A) (i : Z) (v : A) :
  Forall P l -> P v -> py_setitem l i v = Ret l' -> Forall P l'.
Proof.
  intros Hl Hv H. apply py_setitem_Ret in H as (n & _ & _ & ->). by apply Forall_insert.
Qed.

Lemma py_getitem_Forall {A} (P : A -> Prop) (l : list A) (i : Z) (x : A) :
  Forall P l -> py_getitem l i = Ret x -> P x.
Proof.
  intros Hl. unfold py_getitem. destruct (py_pos l i) as [n | e |]; cbn [mbind outcome_bind];
    [| discriminate | discriminate].
  intros H. apply getitem_Ret in H. by eapply Forall_lookup_1.
Qed.

Lemma slice_1_sublist {A} (hi : nat) (l : list A) : sublist (slice_1 hi l) l.
Proof.
  unfold slice_1. etrans; [apply sublist_take | apply sublist_drop].
Qed.

Lemma slice_1_Forall {A} (P : A -> Prop) (hi : nat) (l : list A) :
  Forall P l -> Forall P (slice_1 hi l).
Proof. intros H. unfold slice_1. by apply Forall_take, Forall_drop. Qed.

Section TrainingMore.

Context {State : Type}.
Variable zero_state1 zero_state2 : State.
Variable MidiFile_open : string -> exn + MidiFile.
Variable file_list : list string.
Variable seq_length : nat.
Variable max_midi_files_in_memory : nat.
Variable loading_rate : Q.

Local Abbreviation rotate :=
  (rotation zero_state1 zero_state2 MidiFile_open file_list max_midi_files_in_memory).
Local Abbreviation select :=
  (select_stream zero_state1 zero_state2 MidiFile_open file_list seq_length
                 max_midi_files_in_memory loading_rate).
Local Abbreviation iteration :=
  (train_iteration zero_state1 zero_state2 MidiFile_open file_list seq_length
                   max_midi_files_in_memory loading_rate).
Local Abbreviation training :=
  (train zero_state1 zero_state2 MidiFile_open file_list seq_length
         max_midi_files_in_memory loading_rate).

(** A candidate that the [try] block binds is an index of [file_list]. *)
Lemma try_candidate_index (r : nat) (fc fc' : option nat) (fl fl' : bool) :
  try_candidate MidiFile_open file_list r fc fl = (fc', fl') ->
  (fl = true -> exists c, fc = Some c /\ (c < length file_list)%nat) ->
  (fl' = true -> exists c, fc' = Some c /\ (c < length file_list)%nat).
Proof.
  unfold try_candidate. intros H Hinv.
  destruct (randint r (length file_list)) as [c | e |] eqn:Er.
  - apply randint_Ret in Er as (_ & _ & Hc).
    assert (fc' = Some c) as ->.
    { destruct (name ← getitem file_list c; is_midi_0 MidiFile_open name) as [[|] | |];
        [destruct (name ← getitem file_list c; MidiFile_ MidiFile_open name) | | |];
        by injection H as <- _. }
    intros _. by exists c.
  - injection H as <- <-. exact Hinv.
  - injection H as <- <-. exact Hinv.
Qed.

(** The inner [while] ends only with [file_choice] bound to an index of
    [file_list] that is not in [loaded_files]. *)
Lemma choose_file_Ret (cs : list nat) :
  forall (fl : bool) (fc fc' : option nat) (lf : option (list nat)) (cs' : list nat),
    (fl = true -> exists c, fc = Some c /\ (c < length file_list)%nat) ->
    choose_file MidiFile_open file_list cs fl fc lf = Ret (fc', cs') ->
    exists (c : nat) (l : list nat),
      fc' = Some c /\ lf = Some l /\ (c < length file_list)%nat /\ c ∉ l.
Proof.
  induction cs as [|r cs IH]; intros fl fc fc' lf cs' Hinv; cbn [choose_file].
  - destruct fl; cbn [negb mbind outcome_bind]; [| discriminate].
    destruct (Hinv eq_refl) as (c & -> & Hc). destruct lf as [l |]; cbn; [| discriminate].
    destruct (bool_decide (c ∈ l)) eqn:E; [discriminate |].
    intros [= <- <-]. exists c, l. apply bool_decide_eq_false in E. done.
  - destruct fl; cbn [negb mbind outcome_bind].
    + destruct (Hinv eq_refl) as (c & -> & Hc). destruct lf as [l |]; cbn; [| discriminate].
      destruct (bool_decide (c ∈ l)) eqn:E.
      * destruct (try_candidate MidiFile_open file_list r (Some c) true) as [fc1 fl1] eqn:Et.
        apply IH. eapply try_candidate_index; [exact Et |]. intros _. by exists c.
      * intros [= <- <-]. exists c, l. apply bool_decide_eq_false in E. done.
    + destruct (try_candidate MidiFile_open file_list r fc false) as [fc1 fl1] eqn:Et.
      apply IH. eapply try_candidate_index; [exact Et | discriminate].
Qed.

(** What the block under the uniform test would leave if its inner loop
    ended: no new stream.  (With [loaded_files] bound nowhere it does not
    end, see [rotation_unbound].) *)
Lemma rotation_Ret (cs cs' : list nat) (s s' : @pool State) :
  rotate cs s = Ret (s', cs') ->
  (exists (c : nat) (l' : list nat),
     file_choice s' = Some c /\ (c < length file_list)%nat /\
     loaded_files s' = Some l' /\ c ∉ l') /\
  sublist (midis_array s') (midis_array s) /\
  sublist (midi_times_array s') (midi_times_array s) /\
  (length (midis_array s') <= max_midi_files_in_memory)%nat /\
  current_file s' = Z.of_nat (length (midis_array s')) - 1.
Proof.
  unfold rotation.
  destruct (choose_file _ _ _ _ _ _) as [[fc cs1] | e |] eqn:Ec; cbn [mbind outcome_bind];
    [| discriminate | discriminate].
  apply choose_file_Ret in Ec as (c & l & -> & Hl & Hc & Hnot); [| discriminate].
  rewrite Hl. cbn [name_value mbind outcome_bind].
  destruct (Nat.ltb_spec max_midi_files_in_memory (length (midis_array s))) as [Hlt | Hge];
    cbn [mbind outcome_bind]; intros [= <- <-];
    cbn [midis_array midi_times_array loaded_files file_choice current_file].
  - split; [exists c, (slice_1 max_midi_files_in_memory l) |].
    { repeat split; [done |]. intros Hin. apply Hnot.
      eapply elem_of_sublist; [exact Hin | apply slice_1_sublist]. }
    split; [apply slice_1_sublist |]. split; [apply slice_1_sublist |].
    split; [rewrite slice_1_length; lia | done].
  - split; [by exists c, l |]. repeat split; [done | done | lia].
Qed.

Lemma rotation_cursors (cs cs' : list nat) (s s' : @pool State) :
  rotate cs s = Ret (s', cs') -> Forall (fun p => 0 <= p) (p_list s) ->
  Forall (fun p => 0 <= p) (p_list s').
Proof.
  unfold rotation. intros H Hp.
  assert (Hp' : Forall (fun p => 0 <= p) (p_list s ++ [0])).
  { apply Forall_app. split; [exact Hp |]. apply Forall_cons_2; [lia | constructor]. }
  destruct (choose_file _ _ _ _ _ _) as [[fc cs1] | e |]; cbn [mbind outcome_bind] in H;
    [| discriminate | discriminate].
  destruct (max_midi_files_in_memory <? length (midis_array s))%nat.
  - destruct (name_value (loaded_files s)) as [l | e |]; cbn [mbind outcome_bind] in H;
      [| discriminate | discriminate].
    injection H as <- <-. cbn [p_list]. by apply slice_1_Forall.
  - cbn [mbind outcome_bind] in H. injection H as <- <-. exact Hp'.
Qed.

(** What holds when the outer [while] is left: a window fits at the cursor
    of the current stream; no stream was added; no cursor is negative if
    none was. *)
Lemma select_stream_Ret (rs : list (nat * Q)) :
  forall (cs cs1 : list nat) (s s1 : @pool State),
    select rs cs s = Ret (s1, cs1) ->
    exhausted seq_length s1 = Ret false /\
    sublist (midis_array s1) (midis_array s) /\
    sublist (midi_times_array s1) (midi_times_array s) /\
    (Forall (fun p => 0 <= p) (p_list s) -> Forall (fun p => 0 <= p) (p_list s1)).
Proof.
  induction rs as [|[r u] rs IH]; intros cs cs1 s s1; cbn [select_stream].
  - destruct (exhausted seq_length s) as [[|] | e |] eqn:E; cbn [mbind outcome_bind];
      try discriminate.
    intros [= <- <-]. done.
  - destruct (exhausted seq_length s) as [[|] | e |] eqn:E; cbn [mbind outcome_bind];
      try discriminate; [| intros [= <- <-]; done].
    destruct (py_setitem (p_list s) (current_file s) 0) as [pl | e |] eqn:Epl;
      cbn [mbind outcome_bind]; try discriminate.
    destruct (py_setitem (rnn_state1_list s) (current_file s) zero_state1) as [l1 | e |];
      cbn [mbind outcome_bind]; try discriminate.
    destruct (py_setitem (rnn_state2_list s) (current_file s) zero_state2) as [l2 | e |];
      cbn [mbind outcome_bind]; try discriminate.
    destruct (randint r (length (midis_array s))) as [c | e |];
      cbn [mbind outcome_bind]; try discriminate.
    destruct (negb (Qle_bool u loading_rate)).
    + destruct (rotate cs _) as [[s2 cs2] | e |] eqn:Er; cbn [mbind outcome_bind];
        try discriminate.
      intros H. apply IH in H as (He & Hm & Ht & Hp).
      pose proof (rotation_Ret _ _ _ _ Er) as (_ & Hm2 & Ht2 & _).
      pose proof (rotation_cursors _ _ _ _ Er) as Hp2.
      cbn [midis_array midi_times_array p_list] in Hm2, Ht2, Hp2.
      split; [exact He |]. split; [by etrans |]. split; [by etrans |].
      intros H0. apply Hp, Hp2. eapply py_setitem_Forall; [exact H0 | | exact Epl]. lia.
    + cbn [mbind outcome_bind]. intros H. apply IH in H as (He & Hm & Ht & Hp).
      cbn [midis_array midi_times_array p_list] in Hm, Ht, Hp.
      split; [exact He |]. split; [exact Hm |]. split; [exact Ht |].
      intros H0. apply Hp. eapply py_setitem_Forall; [exact H0 | | exact Epl]. lia.
Qed.

Lemma iteration_Ret (d : draws) (s s' : @pool State) :
  iteration d s = Ret s' ->
  (exists (p : Z) (a : ndarray),
     py_getitem (p_list s') (current_file s') = Ret (p + Z.of_nat seq_length) /\
     py_getitem (midis_array s') (current_file s') = Ret a /\
     p + Z.of_nat seq_length + 1 <= Z.of_nat (rows a) /\
     (Forall (fun p => 0 <= p) (p_list s) -> 0 <= p)) /\
  sublist (midis_array s') (midis_array s) /\
  sublist (midi_times_array s') (midi_times_array s) /\
  (Forall (fun p => 0 <= p) (p_list s) -> Forall (fun p => 0 <= p) (p_list s')).
Proof.
  unfold train_iteration.
  destruct (randint (first_file d) (length (midis_array s))) as [c | e |];
    cbn [mbind outcome_bind]; try discriminate.
  destruct (select _ _ _) as [[s1 cs1] | e |] eqn:Es; cbn [mbind outcome_bind];
    try discriminate.
  apply select_stream_Ret in Es as (He & Hm & Ht & Hp).
  cbn [midis_array midi_times_array p_list] in Hm, Ht, Hp.
  unfold exhausted in He.
  destruct (py_getitem (p_list s1) (current_file s1)) as [p | e |] eqn:Ep;
    cbn [mbind outcome_bind] in *; try discriminate.
  destruct (py_getitem (midis_array s1) (current_file s1)) as [a | e |] eqn:Ea;
    cbn [mbind outcome_bind] in He; try discriminate.
  injection He as He. apply Z.ltb_ge in He.
  destruct (py_getitem (rnn_state2_list s1) (current_file s1)) as [x2 | e |];
    cbn [mbind outcome_bind]; try discriminate.
  destruct (py_getitem (rnn_state1_list s1) (current_file s1)) as [x1 | e |];
    cbn [mbind outcome_bind]; try discriminate.
  destruct (py_setitem (rnn_state1_list s1) _ _) as [l1 | e |];
    cbn [mbind outcome_bind]; try discriminate.
  destruct (py_setitem (rnn_state2_list s1) _ _) as [l2 | e |];
    cbn [mbind outcome_bind]; try discriminate.
  destruct (py_setitem (p_list s1) _ _) as [pl | e |] eqn:Epl;
    cbn [mbind outcome_bind]; try discriminate.
  intros [= <-]. cbn [midis_array midi_times_array p_list current_file].
  split; [exists p, a |].
  { split; [by eapply py_getitem_setitem |]. split; [exact Ea |]. split; [exact He |].
    intros H0. exact (py_getitem_Forall _ _ _ _ (Hp H0) Ep). }
  split; [exact Hm |]. split; [exact Ht |].
  intros H0. pose proof (py_getitem_Forall _ _ _ _ (Hp H0) Ep) as Hp0. cbv beta in Hp0.
  eapply py_setitem_Forall; [exact (Hp H0) | | exact Epl]. cbv beta. lia.
Qed.

(** With [loaded_files] bound nowhere, leaving the outer [while] means
    that no rotation was started: the streams are the same. *)
Lemma select_stream_unbound (rs : list (nat * Q)) :
  forall (cs cs1 : list nat) (s s1 : @pool State),
    loaded_files s = None ->
    select rs cs s = Ret (s1, cs1) ->
    midis_array s1 = midis_array s /\
    midi_times_array s1 = midi_times_array s /\
    loaded_files s1 = None.
Proof.
  induction rs as [|[r u] rs IH]; intros cs cs1 s s1 Hl; cbn [select_stream].
  - destruct (exhausted seq_length s) as [[|] | e |]; cbn [mbind outcome_bind];
      try discriminate.
    intros [= <- <-]. done.
  - destruct (exhausted seq_length s) as [[|] | e |]; cbn [mbind outcome_bind];
      try discriminate; [| intros [= <- <-]; done].
    destruct (py_setitem (p_list s) (current_file s) 0) as [pl | e |];
      cbn [mbind outcome_bind]; try discriminate.
    destruct (py_setitem (rnn_state1_list s) (current_file s) zero_state1) as [l1 | e |];
      cbn [mbind outcome_bind]; try discriminate.
    destruct (py_setitem (rnn_state2_list s) (current_file s) zero_state2) as [l2 | e |];
      cbn [mbind outcome_bind]; try discriminate.
    destruct (randint r (length (midis_array s))) as [c | e |];
      cbn [mbind outcome_bind]; try discriminate.
    destruct (negb (Qle_bool u loading_rate)).
    + destruct (rotate cs _) as [[s2 cs2] | e |] eqn:Er; cbn [mbind outcome_bind];
        try discriminate.
      by apply rotation_unbound in Er.
    + cbn [mbind outcome_bind]. intros H. apply IH in H; [| exact Hl]. exact H.
Qed.

Lemma iteration_unbound (d : draws) (s s' : @pool State) :
  loaded_files s = None ->
  iteration d s = Ret s' ->
  midis_array s' = midis_array s /\
  midi_times_array s' = midi_times_array s /\
  loaded_files s' = None.
Proof.
  intros Hl. unfold train_iteration.
  destruct (randint (first_file d) (length (midis_array s))) as [c | e |];
    cbn [mbind outcome_bind]; try discriminate.
  destruct (select _ _ _) as [[s1 cs1] | e |] eqn:Es; cbn [mbind outcome_bind];
    try discriminate.
  apply select_stream_unbound in Es as (Hm & Ht & Hl1); [| exact Hl].
  cbn [midis_array midi_times_array] in Hm, Ht.
  destruct (py_getitem (p_list s1) (current_file s1)) as [p | e |];
    cbn [mbind outcome_bind]; try discriminate.
  destruct (py_getitem (rnn_state2_list s1) (current_file s1)) as [x2 | e |];
    cbn [mbind outcome_bind]; try discriminate.
  destruct (py_getitem (rnn_state1_list s1) (current_file s1)) as [x1 | e |];
    cbn [mbind outcome_bind]; try discriminate.
  destruct (py_setitem (rnn_state1_list s1) _ _) as [l1 | e |];
    cbn [mbind outcome_bind]; try discriminate.
  destruct (py_setitem (rnn_state2_list s1) _ _) as [l2 | e |];
    cbn [mbind outcome_bind]; try discriminate.
  destruct (py_setitem (p_list s1) _ _) as [pl | e |];
    cbn [mbind outcome_bind]; try discriminate.
  intros [= <-]. cbn [midis_array midi_times_array loaded_files]. done.
Qed.

(** With [loaded_files] bound nowhere, as in every cell of the notebook,
    the record arrays and the time arrays stay exactly those of the start,
    and no rotation completes afterwards either. *)
Lemma training_unbound (ds : list draws) :
  forall s s' : @pool State,
    loaded_files s = None ->
    training ds s = Ret s' ->
    midis_array s' = midis_array s /\
    midi_times_array s' = midi_times_array s /\
    (forall (cs : list nat) (r : @pool State * list nat), rotate cs s' <> Ret r).
Proof.
  induction ds as [|d ds IH]; intros s s' Hl; cbn [train].
  - intros [= <-]. repeat split; try done. intros cs r. by apply rotation_unbound.
  - destruct (iteration d s) as [s1 | e |] eqn:E; cbn [mbind outcome_bind]; try discriminate.
    apply iteration_unbound in E as (Hm & Ht & Hl1); [| exact Hl].
    intros H. apply IH in H as (H2 & H3 & H4); [| exact Hl1].
    split; [by rewrite H2 |]. split; [by rewrite H3 | exact H4].
Qed.


(** X14.  Training never adds a stream: after any number of iterations,
    with or without rotations, the record arrays and the time arrays are
    sublists of the ones the run started with. *)
Theorem train_never_admits (ds : list draws) :
  forall s s' : @pool State,
    training ds s = Ret s' ->
    sublist (midis_array s') (midis_array s) /\
    sublist (midi_times_array s') (midi_times_array s).
Proof.
  induction ds as [|d ds IH]; intros s s'; cbn [train].
  - by intros [= <-].
  - destruct (iteration d s) as [s1 | e |] eqn:E; cbn [mbind outcome_bind]; try discriminate.
    intros H. apply IH in H as [Hm Ht].
    apply iteration_Ret in E as (_ & Hm1 & Ht1 & _). split; by etrans.
Qed.

(** X15.  An iteration that completes has trained on a window that lies
    inside the current stream: the cursor it leaves is [p + seq_length]
    for a cursor [p] with [p + seq_length + 1 <= N], [N] the number of
    records of that stream; [p] is not negative when no cursor was. *)
Theorem served_window_fits (d : draws) (s s' : @pool State) :
  iteration d s = Ret s' ->
  exists (p : Z) (a : ndarray),
    py_getitem (p_list s') (current_file s') = Ret (p + Z.of_nat seq_length) /\
    py_getitem (midis_array s') (current_file s') = Ret a /\
    p + Z.of_nat seq_length + 1 <= Z.of_nat (rows a) /\
    (Forall (fun p => 0 <= p) (p_list s) -> 0 <= p).
Proof. intros H. by apply iteration_Ret in H as [H _]. Qed.

(** X16.  No run of the training loop makes a cursor negative. *)
Theorem cursors_never_negative (ds : list draws) :
  forall s s' : @pool State,
    Forall (fun p => 0 <= p) (p_list s) ->
    training ds s = Ret s' ->
    Forall (fun p => 0 <= p) (p_list s').
Proof.
  induction ds as [|d ds IH]; intros s s' Hp; cbn [train].
  - by intros [= <-].
  - destruct (iteration d s) as [s1 | e |] eqn:E; cbn [mbind outcome_bind]; try discriminate.
    apply IH. apply iteration_Ret in E as (_ & _ & _ & H). by apply H.
Qed.

End TrainingMore.



(** Two iterations on the pool of the notebook. *)
Lemma train_never_admits_witness :
  sublist (midis_array (notebook_pool_at 4)) (midis_array notebook_pool) /\
  sublist (midi_times_array (notebook_pool_at 4)) (midi_times_array notebook_pool).
Proof.
  apply (train_never_admits tt tt every_file_ok four_files 2 500 (99 # 100)
           [draw_0; draw_0] notebook_pool (notebook_pool_at 4)).
  vm_compute. reflexivity.
Defined.

(** One iteration on the pool of the notebook: the window at cursor 0. *)
Lemma served_window_fits_witness :
  exists (p : Z) (a : ndarray),
    py_getitem (p_list (notebook_pool_at 2)) (current_file (notebook_pool_at 2))
    = Ret (p + Z.of_nat 2) /\
    py_getitem (midis_array (notebook_pool_at 2)) (current_file (notebook_pool_at 2)) = Ret a /\
    p + Z.of_nat 2 + 1 <= Z.of_nat (rows a) /\
    (Forall (fun p => 0 <= p) (p_list notebook_pool) -> 0 <= p).
Proof.
  apply (served_window_fits tt tt every_file_ok four_files 2 500 (99 # 100)
           draw_0 notebook_pool (notebook_pool_at 2)).
  vm_compute. reflexivity.
Defined.

Lemma cursors_never_negative_witness :
  Forall (fun p => 0 <= p) (p_list (notebook_pool_at 4)).
Proof.
  apply (cursors_never_negative tt tt every_file_ok four_files 2 500 (99 # 100)
           [draw_0; draw_0] notebook_pool (notebook_pool_at 4)).
  - apply Forall_cons_2; [cbn; lia | apply Forall_nil_2].
  - vm_compute. reflexivity.
Defined.

(** ** The generation cell *)

Lemma put_length (off : nat) (vals buf : list Q) :
  (off + length vals <= length buf)%nat -> length (put off vals buf) = length buf.
Proof.
  intros H. unfold put. rewrite !length_app, length_take, length_drop. lia.
Qed.

Lemma put_put (off : nat) (v1 v2 buf : list Q) :
  length v1 = length v2 -> (off + length v1 <= length buf)%nat ->
  put off v2 (put off v1 buf) = put off v2 buf.
Proof.
  intros Hv Hlen. unfold put.
  assert (Ht : length (take off buf) = off) by (rewrite length_take; lia).
  rewrite take_app_length' by (symmetry; exact Ht).
  rewrite drop_app_ge by lia. rewrite Ht.
  replace (off + length v2 - off)%nat with (length v1) by lia.
  rewrite drop_app_length. by rewrite Hv.
Qed.

Lemma contents_put (h h' : gmap nat (list Q)) (a : ndarray) (vals buf : list Q) :
  h !! base a = Some buf ->
  h' !! base a = Some (put (offset a) vals buf) ->
  length vals = width a -> (1 <= rows a)%nat ->
  (offset a + size a <= length buf)%nat ->
  contents h' a = vals ++ drop (width a) (contents h a).
Proof.
  intros Hb Hb' Hv Hr Hlen. unfold contents. rewrite Hb, Hb'. unfold put, size in *.
  assert (Ht : length (take (offset a) buf) = offset a) by (rewrite length_take; nia).
  rewrite drop_app_length' by (symmetry; exact Ht).
  rewrite take_app_ge by nia. f_equal.
  rewrite Hv, skipn_firstn_comm, drop_drop. f_equal. 
Qed.

Lemma np_set_row0_spec (a : ndarray) (vals buf : list Q) (h : gmap nat (list Q)) :
  h !! base a = Some buf -> (1 <= rows a)%nat -> length vals = width a ->
  np_set_row0 a vals h = (Ret (), <[base a := put (offset a) vals buf]> h).
Proof.
  intros Hb Hr Hv. unfold np_set_row0, np_row0.
  destruct (Nat.ltb_spec 0 (rows a)) as [_ | ?]; [| lia].
  rewrite Hv, Nat.eqb_refl. unfold write, size, put. cbn [base offset rows width].
  by rewrite Hb, Nat.mul_1_l, Hv.
Qed.

Lemma fed_back_length (d : list Q) : length (fed_back d) = length d.
Proof. unfold fed_back. by rewrite length_map. Qed.

Section GenerationFacts.

Variables input_midi_val input_time_val : ndarray.
Hypothesis Hne : base input_midi_val <> base input_time_val.
Hypothesis Hrm : (1 <= rows input_midi_val)%nat.
Hypothesis Hrt : (1 <= rows input_time_val)%nat.
Hypothesis Hwm : width input_midi_val = 40%nat.
Hypothesis Hwt : width input_time_val = 1%nat.

Lemma generation_step_spec (d t bufm buft : list Q) (g : generated) (h : gmap nat (list Q)) :
  h !! base input_midi_val = Some bufm -> h !! base input_time_val = Some buft ->
  length d = 40%nat -> length t = 1%nat ->
  generation_step input_midi_val input_time_val d t g h
  = (Ret {| midi_data_vals := midi_data_vals g ++ [generated_row (d, t)];
            midi_time_vals := midi_time_vals g ++ [generated_time (d, t)] |},
     <[base input_time_val := put (offset input_time_val) (map relu t) buft]>
       (<[base input_midi_val := put (offset input_midi_val) (fed_back d) bufm]> h)).
Proof.
  intros Hbm Hbt Hd Ht. unfold generation_step, mbind, NP_bind, lift, mret, NP_ret.
  rewrite Hd, Ht. cbn [Nat.eqb Nat.mul Nat.add]. cbv beta iota.
  rewrite (np_set_row0_spec input_midi_val _ bufm h Hbm Hrm)
    by (rewrite length_map; congruence).
  cbv beta iota.
  rewrite (np_set_row0_spec input_time_val (map relu t) buft)
    by (rewrite ?lookup_insert_ne by done; rewrite ?length_map; done || congruence).
  reflexivity.
Qed.

Lemma generation_loop_spec (outs : list (list Q * list Q)) :
  forall (g : generated) (h : gmap nat (list Q)) (bufm buft : list Q),
    h !! base input_midi_val = Some bufm -> h !! base input_time_val = Some buft ->
    (offset input_midi_val + 40 <= length bufm)%nat ->
    (offset input_time_val + 1 <= length buft)%nat ->
    Forall output_shaped outs ->
    exists (g' : generated) (h' : gmap nat (list Q)),
      generation_loop input_midi_val input_time_val outs g h = (Ret g', h') /\
      midi_data_vals g' = midi_data_vals g ++ map generated_row outs /\
      midi_time_vals g' = midi_time_vals g ++ map generated_time outs /\
      h' !! base input_midi_val
      = Some (match last outs with
              | Some out => put (offset input_midi_val) (fed_back (fst out)) bufm
              | None => bufm
              end) /\
      h' !! base input_time_val
      = Some (match last outs with
              | Some out => put (offset input_time_val) (map relu (snd out)) buft
              | None => buft
              end) /\
      forall l : nat, l <> base input_midi_val -> l <> base input_time_val -> h' !! l = h !! l.
Proof.
  induction outs as [|[d t] outs IH]; intros g h bufm buft Hbm Hbt Hlm Hlt Hall.
  - exists g, h. cbn. rewrite !app_nil_r. done.
  - inversion_clear Hall as [|? ? [Hd Ht] Hall']. cbn [fst snd] in Hd, Ht.
    cbn [generation_loop]. unfold mbind at 1, NP_bind at 1.
    rewrite (generation_step_spec d t bufm buft g h Hbm Hbt Hd Ht).
    match goal with
    | |- context [generation_loop _ _ outs ?g1 ?h1] =>
        destruct (IH g1 h1 (put (offset input_midi_val) (fed_back d) bufm)
                     (put (offset input_time_val) (map relu t) buft))
          as (g' & h' & Hrun & Hdata & Htime & Hm' & Ht' & Hframe)
    end.
    + rewrite lookup_insert_ne by done. by rewrite lookup_insert_eq.
    + by rewrite lookup_insert_eq.
    + rewrite put_length; [lia | rewrite fed_back_length; lia].
    + rewrite put_length; [lia | rewrite length_map; lia].
    + exact Hall'.
    + exists g', h'. split; [exact Hrun |].
      cbn [midi_data_vals midi_time_vals] in Hdata, Htime.
      split; [rewrite Hdata, <- app_assoc; reflexivity |].
      split; [rewrite Htime, <- app_assoc; reflexivity |].
      rewrite last_cons.
      split; [| split].
      * rewrite Hm'. destruct (last outs) as [[d' t'] |] eqn:El; [| done].
        cbn [fst]. f_equal. apply put_put; rewrite !fed_back_length.
        -- pose proof (proj1 (Forall_forall _ _) Hall' _ (last_Some_elem_of _ _ El)) as [Hd' _].
           cbn [fst] in Hd'. congruence.
        -- lia.
      * rewrite Ht'. destruct (last outs) as [[d' t'] |] eqn:El; [| done].
        cbn [snd]. f_equal. apply put_put; rewrite !length_map.
        -- pose proof (proj1 (Forall_forall _ _) Hall' _ (last_Some_elem_of _ _ El)) as [_ Ht''].
           cbn [snd] in Ht''. congruence.
        -- lia.
      * intros l H1 H2. rewrite Hframe by done. by rewrite !lookup_insert_ne.
Qed.

End GenerationFacts.

Lemma input_view (a : ndarray) (S w : nat) :
  width a = w -> (S <= rows a)%nat ->
  np_reshape (np_slice a 0 S) S w
  = Ret {| base := base a; offset := offset a; rows := S; width := w |}.
Proof.
  intros Hw HS. rewrite np_reshape_ok.
  - unfold np_slice. cbn [base offset Nat.min]. f_equal. f_equal. lia.
  - unfold size, np_slice. cbn [rows width Nat.min]. rewrite Hw. f_equal. lia.
Qed.

Lemma generated_row_length (out : list Q * list Q) :
  length (generated_row out) = length (fst out).
Proof. unfold generated_row. by rewrite length_map. Qed.

(** The cell on a stream that has [seq_length] records, with outputs of
    the shapes of the graph: it returns; the lists hold the first record
    and time of the stream, then one entry per output; the buffers of the
    stream hold the last output in their first row; no other buffer
    changes. *)
Lemma generation_spec (midis_array midi_times_array : list ndarray) (cf : Z) (S : nat)
    (outs : list (list Q * list Q)) (h : gmap nat (list Q)) (m t : ndarray)
    (bufm buft : list Q) :
  py_getitem midis_array cf = Ret m ->
  py_getitem midi_times_array cf = Ret t ->
  width m = 40%nat -> width t = 1%nat ->
  (1 <= S)%nat -> (S <= rows m)%nat -> (S <= rows t)%nat ->
  base m <> base t ->
  h !! base m = Some bufm -> (offset m + size m <= length bufm)%nat ->
  h !! base t = Some buft -> (offset t + size t <= length buft)%nat ->
  Forall output_shaped outs ->
  exists (g : generated) (h' : gmap nat (list Q)),
    generation midis_array midi_times_array cf S outs h = (Ret g, h') /\
    midi_data_vals g
    = map np_round (take 40 (drop (offset m) bufm)) :: map generated_row outs /\
    midi_time_vals g
    = int32 (np_round (hd 0%Q (take 1 (drop (offset t) buft)))) :: map generated_time outs /\
    h' !! base m
    = Some (match last outs with
            | Some out => put (offset m) (fed_back (fst out)) bufm
            | None => bufm
            end) /\
    h' !! base t
    = Some (match last outs with
            | Some out => put (offset t) (map relu (snd out)) buft
            | None => buft
            end) /\
    forall l : nat, l <> base m -> l <> base t -> h' !! l = h !! l.
Proof.
  intros Hpm Hpt Hwm Hwt HS Hrm Hrt Hne Hbm Hlm Hbt Hlt Houts.
  unfold size in Hlm, Hlt. rewrite Hwm in Hlm. rewrite Hwt in Hlt.
  unfold generation, mbind, NP_bind, lift, np_read.
  rewrite Hpm. cbv beta iota.
  change (5 * 8)%nat with 40%nat. rewrite (input_view m S 40 Hwm Hrm). cbv beta iota.
  rewrite Hpt. cbv beta iota. rewrite (input_view t S 1 Hwt Hrt). cbv beta iota.
  unfold np_row0. cbn [rows base offset width].
  destruct (Nat.ltb_spec 0 S) as [_ | ?]; [| lia]. cbv beta iota.
  unfold contents, size. cbn [rows base offset width]. rewrite Hbm, Hbt.
  change (1 * 40)%nat with 40%nat. change (1 * 1)%nat with 1%nat.
  apply (generation_loop_spec
           {| base := base m; offset := offset m; rows := S; width := 40 |}
           {| base := base t; offset := offset t; rows := S; width := 1 |});
    cbn [rows base offset width]; try done; nia.
Qed.

Lemma to_int32_unit_interval (x : Q) : (0 <= x)%Q -> (x < 1)%Q -> to_int32 (relu x) = 0.
Proof.
  intros H0 H1. unfold relu. destruct (Qle_bool x 0) eqn:E; [reflexivity |].
  unfold to_int32. apply Z.quot_small.
  unfold Qle, Qlt in *. cbn in H0, H1. lia.
Qed.

(** X17.  The generation cell runs to its end.  On a current stream of at
    least [seq_length >= 1] records, and with outputs of the network of
    the shapes of the graph (40 record scalars, one time), for any number
    of turns: no index, reshape or row assignment fails, and
    [create_midi_track] returns a track, of at most two messages for each
    entry of the lists. *)
Theorem generate_track_returns (from_bytes : list Z -> exn + list Z)
    (np_mean : list scalar -> spec_float)
    (midis_array midi_times_array : list ndarray) (cf : Z) (S : nat)
    (outs : list (list Q * list Q)) (h : gmap nat (list Q)) (m t : ndarray) :
  py_getitem midis_array cf = Ret m ->
  py_getitem midi_times_array cf = Ret t ->
  width m = 40%nat -> width t = 1%nat ->
  (1 <= S)%nat -> (S <= rows m)%nat -> (S <= rows t)%nat ->
  base m <> base t -> backed h m -> backed h t ->
  Forall output_shaped outs ->
  exists (tr : list TrackMessage) (h' : gmap nat (list Q)),
    generate_track from_bytes np_mean midis_array midi_times_array cf S outs h
    = (Ret tr, h') /\
    (length tr <= 2 * (length outs + 1))%nat.
Proof.
  intros Hpm Hpt Hwm Hwt HS Hrm Hrt Hne (bufm & Hbm & Hlm) (buft & Hbt & Hlt) Houts.
  destruct (generation_spec midis_array midi_times_array cf S outs h m t bufm buft
              Hpm Hpt Hwm Hwt HS Hrm Hrt Hne Hbm Hlm Hbt Hlt Houts)
    as (g & h' & Hrun & Hdata & Htime & _).
  unfold generate_track, mbind, NP_bind, lift. rewrite Hrun. cbv beta iota.
  unfold size in Hlm. rewrite Hwm in Hlm.
  destruct (decode_records_steps from_bytes np_mean (midi_time_vals g) (midi_data_vals g)
              0 decoder_init)
    as (d' & new & Hd & Htr & _ & Hlen & _).
  - rewrite Hdata. apply Forall_cons_2.
    + rewrite length_map, length_take, length_drop. nia.
    + apply Forall_forall. intros row Hrow.
      apply list_elem_of_fmap in Hrow as (out & -> & Hout).
      rewrite generated_row_length.
      destruct (proj1 (Forall_forall _ _) Houts _ Hout) as [Hd _]. lia.
  - rewrite Hdata, Htime. cbn [length]. rewrite !length_map. lia.
  - unfold create_midi_track. rewrite Hd. cbn [mbind outcome_bind].
    exists (track d'), h'. split; [reflexivity |].
    rewrite Htr. cbn [decoder_init track app]. rewrite Hdata in Hlen.
    cbn [length] in Hlen. rewrite length_map in Hlen. lia.
Qed.

(** X18.  The generation cell writes into the training data.  Its inputs
    are views of the stored arrays of the current stream, so after the
    loop the first record of that stream holds the last record output of
    the network, clamped at 0 and truncated to integers, and its first time
    holds the last time output, clamped at 0; every other scalar of the
    stream and every other buffer is as before.  For record outputs in
    [0,1), the range of the sigmoid short of saturation, the first record
    of the stream ends as forty zeros. *)
Theorem generation_overwrites_stream
    (midis_array midi_times_array : list ndarray) (cf : Z) (S : nat)
    (outs : list (list Q * list Q)) (d t : list Q)
    (h : gmap nat (list Q)) (m ta : ndarray) :
  py_getitem midis_array cf = Ret m ->
  py_getitem midi_times_array cf = Ret ta ->
  width m = 40%nat -> width ta = 1%nat ->
  (1 <= S)%nat -> (S <= rows m)%nat -> (S <= rows ta)%nat ->
  base m <> base ta -> backed h m -> backed h ta ->
  Forall output_shaped (outs ++ [(d, t)]) ->
  exists (g : generated) (h' : gmap nat (list Q)),
    generation midis_array midi_times_array cf S (outs ++ [(d, t)]) h = (Ret g, h') /\
    contents h' m = fed_back d ++ drop 40 (contents h m) /\
    contents h' ta = map relu t ++ drop 1 (contents h ta) /\
    (forall l : nat, l <> base m -> l <> base ta -> h' !! l = h !! l) /\
    (Forall (fun x => 0 <= x /\ x < 1)%Q d ->
     contents h' m = replicate 40 0%Q ++ drop 40 (contents h m)).
Proof.
  intros Hpm Hpt Hwm Hwt HS Hrm Hrt Hne (bufm & Hbm & Hlm) (buft & Hbt & Hlt) Houts.
  destruct (generation_spec midis_array midi_times_array cf S (outs ++ [(d, t)]) h m ta
              bufm buft Hpm Hpt Hwm Hwt HS Hrm Hrt Hne Hbm Hlm Hbt Hlt Houts)
    as (g & h' & Hrun & _ & _ & Hm' & Ht' & Hframe).
  rewrite last_snoc in Hm', Ht'. cbn [fst snd] in Hm', Ht'.
  apply Forall_app in Houts as [_ Hlast].
  inversion_clear Hlast as [|? ? [Hd Ht] _]. cbn [fst snd] in Hd, Ht.
  assert (Cm : contents h' m = fed_back d ++ drop 40 (contents h m)).
  { rewrite <- Hwm at 1.
    apply (contents_put h h' m (fed_back d) bufm Hbm Hm');
      [rewrite fed_back_length; congruence | lia | exact Hlm]. }
  assert (Ct : contents h' ta = map relu t ++ drop 1 (contents h ta)).
  { rewrite <- Hwt at 1.
    apply (contents_put h h' ta (map relu t) buft Hbt Ht');
      [rewrite length_map; congruence | lia | exact Hlt]. }
  exists g, h'. split; [exact Hrun |]. split; [exact Cm |]. split; [exact Ct |].
  split; [exact Hframe |].
  intros Hunit. rewrite Cm. f_equal.
  rewrite <- Hd. unfold fed_back. clear Hd Cm Hm' Hrun.
  induction Hunit as [|x d' [H0 H1] _ IH]; [reflexivity |].
  cbn [map length replicate]. rewrite (to_int32_unit_interval x H0 H1). by rewrite IH.
Qed.

(** Two turns on the stream of three records, with windows of two. *)
Lemma generate_track_returns_witness :
  exists (tr : list TrackMessage) (h' : gmap nat (list Q)),
    generate_track mido_from_bytes numpy_mean [records 0 3] [times 0 3] 0 2 two_outputs
                   window_store
    = (Ret tr, h') /\
    (length tr <= 2 * (length two_outputs + 1))%nat.
Proof.
  assert (B0 : backed window_store (records 0 3)).
  { eexists. split; [reflexivity | vm_compute; lia]. }
  assert (B1 : backed window_store (times 0 3)).
  { eexists. split; [reflexivity | vm_compute; lia]. }
  apply (generate_track_returns mido_from_bytes numpy_mean [records 0 3] [times 0 3] 0 2
           two_outputs
           window_store (records 0 3) (times 0 3)
           eq_refl eq_refl eq_refl eq_refl); try exact B0; try exact B1; try (cbn; lia).
  repeat (apply Forall_cons_2; [split; reflexivity |]). apply Forall_nil_2.
Defined.

Lemma generation_overwrites_stream_witness :
  exists (g : generated) (h' : gmap nat (list Q)),
    generation [records 0 3] [times 0 3] 0 2
      ([(replicate 40 (1 # 2), [3 # 2])] ++ [(replicate 40 (1 # 4), [5 # 2])])%Q window_store
    = (Ret g, h') /\
    contents h' (records 0 3)
    = fed_back (replicate 40 (1 # 4))%Q ++ drop 40 (contents window_store (records 0 3)) /\
    contents h' (times 0 3)
    = map relu [5 # 2]%Q ++ drop 1 (contents window_store (times 0 3)) /\
    (forall l : nat, l <> base (records 0 3) -> l <> base (times 0 3) ->
                     h' !! l = window_store !! l) /\
    (Forall (fun x => 0 <= x /\ x < 1)%Q (replicate 40 (1 # 4))%Q ->
     contents h' (records 0 3)
     = replicate 40 0%Q ++ drop 40 (contents window_store (records 0 3))).
Proof.
  assert (B0 : backed window_store (records 0 3)).
  { eexists. split; [reflexivity | vm_compute; lia]. }
  assert (B1 : backed window_store (times 0 3)).
  { eexists. split; [reflexivity | vm_compute; lia]. }
  apply (generation_overwrites_stream [records 0 3] [times 0 3] 0 2
           [(replicate 40 (1 # 2), [3 # 2])]%Q (replicate 40 (1 # 4))%Q [5 # 2]%Q
           window_store (records 0 3) (times 0 3)
           eq_refl eq_refl eq_refl eq_refl); try exact B0; try exact B1; try (cbn; lia).
  repeat (apply Forall_cons_2; [split; reflexivity |]). apply Forall_nil_2.
Defined.

(** ** The training loop: a rotation in the notebook as it stands *)

Section RotationStops.

Context {State : Type}.
Variable zero_state1 zero_state2 : State.
Variable MidiFile_open : string -> exn + MidiFile.
Variable file_list : list string.
Variable seq_length : nat.
Variable max_midi_files_in_memory : nat.
Variable loading_rate : Q.

Local Abbreviation iteration :=
  (train_iteration zero_state1 zero_state2 MidiFile_open file_list seq_length
                   max_midi_files_in_memory loading_rate).

(** While [loaded_files] is not bound the inner [while] raises
    [NameError], at the first test after a file was opened, or is still
    drawing. *)
Lemma choose_file_unbound_outcome (cs : list nat) :
  forall (fl : bool) (fc : option nat),
    choose_file MidiFile_open file_list cs fl fc None = Raise NameError \/
    choose_file MidiFile_open file_list cs fl fc None = Looping.
Proof.
  induction cs as [|c cs IH]; intros fl fc; cbn [choose_file].
  - destruct fl; cbn [negb mbind outcome_bind]; [| by right].
    destruct fc; cbn; by left.
  - destruct fl; cbn [negb mbind outcome_bind].
    + destruct fc; cbn; by left.
    + destruct (try_candidate MidiFile_open file_list c fc false) as [fc' fl']. apply IH.
Qed.

Lemma rotation_unbound_outcome (cs : list nat) (s : @pool State) :
  loaded_files s = None ->
  rotation zero_state1 zero_state2 MidiFile_open file_list max_midi_files_in_memory cs s
  = Raise NameError \/
  rotation zero_state1 zero_state2 MidiFile_open file_list max_midi_files_in_memory cs s
  = Looping.
Proof.
  intros Hl. unfold rotation. rewrite Hl.
  destruct (choose_file_unbound_outcome cs false (file_choice s)) as [-> | ->]; [by left | by right].
Qed.

(** X19.  In the notebook as it stands training does not survive a
    rotation.  An iteration that draws an exhausted stream and then a
    uniform sample above [loading_rate], while [loaded_files] is bound
    nowhere, does not complete: it raises [NameError] once a file has been
    opened, and is still drawing candidates before that. *)
Theorem rotation_stops_training (d : draws) (s : @pool State) (n i r : nat) (u : Q)
    (rs : list (nat * Q)) (a : ndarray) (p : Z) :
  aligned s n ->
  (first_file d mod n = i)%nat ->
  midis_array s !! i = Some a ->
  p_list s !! i = Some p ->
  Z.of_nat (rows a) < p + Z.of_nat seq_length + 1 ->
  resets d = (r, u) :: rs ->
  Qle_bool u loading_rate = false ->
  loaded_files s = None ->
  iteration d s = Raise NameError \/ iteration d s = Looping.
Proof.
  intros (Hm & Hp & H1 & H2) Hd Ha Hpi Hex Hr Hu Hl.
  pose proof (lookup_lt_Some _ _ _ Ha) as Hi.
  assert (Hn : n <> 0%nat) by lia.
  unfold train_iteration. rewrite Hm, (randint_pos _ n Hn), Hd, Hr.
  cbn [mbind outcome_bind select_stream]. unfold exhausted.
  cbn [p_list midis_array current_file rnn_state1_list rnn_state2_list].
  rewrite (py_getitem_nat _ _ _ Hpi), (py_getitem_nat _ _ _ Ha).
  cbn [mbind outcome_bind].
  replace (Z.of_nat (rows a) <? p + Z.of_nat seq_length + 1) with true
    by (symmetry; apply Z.ltb_lt; lia).
  rewrite !py_setitem_nat by lia. cbn [mbind outcome_bind].
  rewrite Hm, (randint_pos _ n Hn), Hu.
  cbn [mbind outcome_bind negb].
  match goal with
  | |- context [rotation _ _ _ _ _ ?cs ?s1] =>
      destruct (rotation_unbound_outcome cs s1 Hl) as [-> | ->]
  end; [by left | by right].
Qed.

End RotationStops.

(** The stream of 5 records with its cursor at 4, windows of 2, a loading
    rate of 0.99 and a uniform sample of 1. *)
Lemma rotation_stops_training_witness :
  train_iteration tt tt every_file_ok four_files 2 500 (99 # 100) draw_rotation
                  (notebook_pool_at 4) = Raise NameError \/
  train_iteration tt tt every_file_ok four_files 2 500 (99 # 100) draw_rotation
                  (notebook_pool_at 4) = Looping.
Proof.
  apply (rotation_stops_training tt tt every_file_ok four_files 2 500 (99 # 100)
           draw_rotation (notebook_pool_at 4) 1 0 0 1%Q [] (records 0 5) 4);
    try reflexivity; try (repeat split; fail); cbn; lia.
Defined.
